(** * Finger Counting Fun: the round engine of [script.js]

    A shallow embedding of the game logic of [src/script.js] (number
    selection, option generation, scoring, the countdown and the round
    life cycle) together with the properties of its specification.

    Conventions of the embedding.
    - JavaScript numbers that are integers throughout (score, streak, the
      seconds left, the numbers 1..10) are [Z].
    - [Math.random] is an oracle: a tape of naturals read left to right;
      [Math.floor(Math.random() * k)] is the next cell modulo [k], so every
      value in [0, k) can come out and nothing else can.
    - The module-level [let] variables, the part of the host that the
      script drives (the intervals created by [setInterval]) and the part
      of the page that carries game information (feedback box, next
      button, option buttons, hands) form one record, threaded through a
      state monad whose computations may end in a thrown [TypeError].
      Colours, CSS classes, the timer bar and the confetti are not
      modelled. The page is assumed to contain the elements the script
      looks up by id. *)

From Stdlib Require Import QArith Qround Ascii String.
From stdpp Require Import gmap list strings.
From Equations Require Import Equations.

Local Open Scope Z_scope.

(* ===================================================================== *)
(** ** Randomness *)
(* ===================================================================== *)

Record Rng := mkRng { tape : nat → nat; cursor : nat }.

(** [Math.floor(Math.random() * k)] *)
Definition randomInt (k : nat) (g : Rng) : nat * Rng :=
  (Nat.modulo (tape g (cursor g)) k, mkRng (tape g) (S (cursor g))).

(** [Math.floor(Math.random() * 10) + 1] *)
Definition random1to10 (g : Rng) : Z * Rng :=
  let '(r, g') := randomInt 10 g in (Z.of_nat r + 1, g').

(** The value the [k]-th next call of [random1to10] will return. *)
Definition nth_sample (g : Rng) (k : nat) : Z :=
  Z.of_nat (Nat.modulo (tape g (cursor g + k)%nat) 10) + 1.

Definition tape_of (l : list nat) : nat → nat := λ i, nth i l 0%nat.

(* ===================================================================== *)
(** ** Option generation ([generateOptions], lines 169-195) *)
(* ===================================================================== *)

(** [[a[i], a[j]] = [a[j], a[i]]]. The shuffles below only call it with
    [j <= i < a.length]; outside the array the model leaves the list as
    it is. *)
Definition swap {A} (i j : nat) (l : list A) : list A :=
  match l !! i, l !! j with
  | Some x, Some y => <[j:=x]> (<[i:=y]> l)
  | _, _ => l
  end.

(** [for (let i = ...; i > 0; i--) { j = floor(random() * (i + 1)); swap }] *)
Fixpoint shuffle_from {A} (i : nat) (l : list A) (g : Rng) : list A * Rng :=
  match i with
  | O => (l, g)
  | S i' =>
      let '(j, g') := randomInt (i + 1) g in
      shuffle_from i' (swap i j l) g'
  end.

Definition fisherYates {A} (l : list A) (g : Rng) : list A * Rng :=
  shuffle_from (length l - 1) l g.

(** A JavaScript [Set] whose iteration order is observed ([Array.from]):
    the list of its members in insertion order. *)
Definition set_add (x : Z) (s : list Z) : list Z :=
  if decide (x ∈ s) then s else s ++ [x].

(** [for (i = 0; i < availableNumbers.length && options.size < 4; i++)
       options.add(availableNumbers[i])] *)
Fixpoint add_wrong (avail options : list Z) : list Z :=
  match avail with
  | [] => options
  | x :: rest =>
      if decide (length options < 4)%nat
      then add_wrong rest (set_add x options)
      else options
  end.

Definition allNumbers : list Z := (λ i, Z.of_nat i + 1) <$> seq 0 10.

Definition generateOptions (correctNum : Z) (g : Rng) : list Z * Rng :=
  let options := [correctNum] in
  let availableNumbers := filter (λ n, n ≠ correctNum) allNumbers in
  let '(availableNumbers, g) := fisherYates availableNumbers g in
  let options := add_wrong availableNumbers options in
  fisherYates options g.

Definition in_1_10 (n : Z) : Prop := 1 ≤ n ≤ 10.

(* ===================================================================== *)
(** ** Number selection ([generateNewNumber], lines 201-222) *)
(* ===================================================================== *)

(** The [do ... while (usedNumbers.has(newNumber))] loop. [attempts] is
    the counter as it stands when an iteration begins. *)
Equations? sample_loop (attempts : nat) (used : gset Z) (g : Rng)
  : Z * gset Z * Rng by wf (21 - attempts)%nat lt :=
  sample_loop attempts used g with random1to10 g := {
    | (newNumber, g1) with decide (20 < S attempts)%nat := {
      | left _ => let '(n2, g2) := random1to10 g1 in (n2, ∅, g2)
      | right _ with decide (newNumber ∈ used) := {
        | left _ => sample_loop (S attempts) used g1
        | right _ => (newNumber, used, g1) } } }.
Proof. lia. Qed.

(** The function on the two pieces of state it touches: the window
    [usedNumbers] and the random source. *)
Definition generateNewNumber (used : gset Z) (g : Rng) : Z * gset Z * Rng :=
  let used := if decide (8 ≤ size used)%nat then ∅ else used in
  let '(newNumber, used, g) := sample_loop 0 used g in
  (newNumber, {[newNumber]} ∪ used, g).

(** The window and the numbers drawn over [k] successive calls. *)
Fixpoint calls (k : nat) (used : gset Z) (g : Rng) : list Z * gset Z * Rng :=
  match k with
  | O => ([], used, g)
  | S k' =>
      let '(n, used', g') := generateNewNumber used g in
      let '(ns, used'', g'') := calls k' used' g' in
      (n :: ns, used'', g'')
  end.

(* ===================================================================== *)
(** ** Game state *)
(* ===================================================================== *)

Record Config := mkConfig {
  correct_message : option string;
  wrong_message : option string
}.

Definition defaultConfig_correct_message : string := "Great job!".
Definition defaultConfig_wrong_message : string := "Try again!".

(** [config.key || defaultConfig.key]: a missing or empty string is falsy. *)
Definition or_default (o : option string) (d : string) : string :=
  match o with
  | Some EmptyString | None => d
  | Some s => s
  end.

Definition numberWords : list string :=
  ["one"; "two"; "three"; "four"; "five";
   "six"; "seven"; "eight"; "nine"; "ten"]%string.

Definition upper_ascii (c : ascii) : ascii :=
  let n := nat_of_ascii c in
  if decide (97 ≤ n ≤ 122)%nat then ascii_of_nat (n - 32) else c.

Fixpoint toUpperCase (s : string) : string :=
  match s with
  | EmptyString => EmptyString
  | String c r => String (upper_ascii c) (toUpperCase r)
  end.

(** What [feedbackEl.innerHTML] shows, with the interpolated values. *)
Inductive Feedback :=
| FbNone
| FbCorrect (msg : string) (points : Z)
| FbWrong (msg : string) (word : string)
| FbTimeUp (word : string).

Record Host := mkHost {
  rng : Rng;
  intervals : gset positive;   (* countdown intervals that are running *)
  nextHandle : positive        (* handles are positive, hence truthy *)
}.

Record Dom := mkDom {
  feedback : Feedback;
  nextHidden : bool;            (* class 'hidden' on #next-btn *)
  optionButtons : list Z;       (* dataset.number of each option button *)
  hands : list (Z * bool)       (* fingers and isLeft of each hand drawn *)
}.

Record Game := mkGame {
  currentNumber : Z;
  score : Z;
  streak : Z;
  answered : bool;
  timerInterval : option positive;
  timeLeft : Z;
  usedNumbers : gset Z;
  host : Host;
  dom : Dom
}.

Definition TIMER_DURATION : Z := 15.

Definition set_currentNumber (v : Z) (g : Game) : Game :=
  mkGame v (score g) (streak g) (answered g) (timerInterval g) (timeLeft g)
         (usedNumbers g) (host g) (dom g).
Definition set_score (v : Z) (g : Game) : Game :=
  mkGame (currentNumber g) v (streak g) (answered g) (timerInterval g)
         (timeLeft g) (usedNumbers g) (host g) (dom g).
Definition set_streak (v : Z) (g : Game) : Game :=
  mkGame (currentNumber g) (score g) v (answered g) (timerInterval g)
         (timeLeft g) (usedNumbers g) (host g) (dom g).
Definition set_answered (v : bool) (g : Game) : Game :=
  mkGame (currentNumber g) (score g) (streak g) v (timerInterval g)
         (timeLeft g) (usedNumbers g) (host g) (dom g).
Definition set_timerInterval (v : option positive) (g : Game) : Game :=
  mkGame (currentNumber g) (score g) (streak g) (answered g) v (timeLeft g)
         (usedNumbers g) (host g) (dom g).
Definition set_timeLeft (v : Z) (g : Game) : Game :=
  mkGame (currentNumber g) (score g) (streak g) (answered g)
         (timerInterval g) v (usedNumbers g) (host g) (dom g).
Definition set_usedNumbers (v : gset Z) (g : Game) : Game :=
  mkGame (currentNumber g) (score g) (streak g) (answered g)
         (timerInterval g) (timeLeft g) v (host g) (dom g).
Definition set_host (v : Host) (g : Game) : Game :=
  mkGame (currentNumber g) (score g) (streak g) (answered g)
         (timerInterval g) (timeLeft g) (usedNumbers g) v (dom g).
Definition set_dom (v : Dom) (g : Game) : Game :=
  mkGame (currentNumber g) (score g) (streak g) (answered g)
         (timerInterval g) (timeLeft g) (usedNumbers g) (host g) v.

Definition set_rng (v : Rng) (g : Game) : Game :=
  set_host (mkHost v (intervals (host g)) (nextHandle (host g))) g.
Definition set_feedback (v : Feedback) (g : Game) : Game :=
  set_dom (mkDom v (nextHidden (dom g)) (optionButtons (dom g))
                 (hands (dom g))) g.
Definition set_nextHidden (v : bool) (g : Game) : Game :=
  set_dom (mkDom (feedback (dom g)) v (optionButtons (dom g))
                 (hands (dom g))) g.
Definition set_optionButtons (v : list Z) (g : Game) : Game :=
  set_dom (mkDom (feedback (dom g)) (nextHidden (dom g)) v
                 (hands (dom g))) g.
Definition set_hands (v : list (Z * bool)) (g : Game) : Game :=
  set_dom (mkDom (feedback (dom g)) (nextHidden (dom g))
                 (optionButtons (dom g)) v) g.

(* ===================================================================== *)
(** ** The monad of handlers: state, and completion by return or throw *)
(* ===================================================================== *)

Inductive completion (A : Type) : Type :=
| Normal (a : A)
| Throw.                         (* an uncaught TypeError *)
Arguments Normal {A} a.
Arguments Throw {A}.

Definition M (A : Type) : Type := Game → completion A * Game.

Definition ret {A} (a : A) : M A := λ g, (Normal a, g).
Definition throw {A} : M A := λ g, (Throw, g).
Definition bind {A B} (m : M A) (k : A → M B) : M B :=
  λ g, match m g with
       | (Normal a, g') => k a g'
       | (Throw, g') => (Throw, g')
       end.
Definition gets {A} (f : Game → A) : M A := λ g, (Normal (f g), g).
Definition modify (f : Game → Game) : M unit := λ g, (Normal tt, f g).

Declare Scope js_scope.
Delimit Scope js_scope with js.
Bind Scope js_scope with M.
Notation "x <- m ;; k" := (bind m (λ x, k))
  (at level 100, m at next level, k at level 200, right associativity)
  : js_scope.
Notation "m ;; k" := (bind m (λ _, k))
  (at level 100, k at level 200, right associativity) : js_scope.
Local Open Scope js_scope.

Definition exec {A} (m : M A) (g : Game) : Game := (m g).2.
Definition outcome {A} (m : M A) (g : Game) : completion A := (m g).1.

(** Values a handler can hand back to its caller. *)
Inductive jsval :=
| JUndefined
| JBool (b : bool)
| JNum (n : Z)
| JObject (fields : list jsfield)
with jsfield :=
| Field (key : string) (value : jsval).

(** The record [{isCorrect, pointsAwarded, correctNumber}]. *)
Definition is_outcome_record (v : jsval) : Prop :=
  ∃ b p c, v = JObject [Field "isCorrect" (JBool b);
                        Field "pointsAwarded" (JNum p);
                        Field "correctNumber" (JNum c)].

(* ===================================================================== *)
(** ** Timer functions (lines 362-433) *)
(* ===================================================================== *)

Definition setInterval : M positive :=
  h <- gets (λ g, nextHandle (host g)) ;;
  modify (λ g, set_host (mkHost (rng (host g))
                                ({[h]} ∪ intervals (host g))
                                (Pos.succ h)) g) ;;
  ret h.

Definition clearInterval (h : positive) : M unit :=
  modify (λ g, set_host (mkHost (rng (host g))
                                (intervals (host g) ∖ {[h]})
                                (nextHandle (host g))) g).

Definition stopTimer : M unit :=
  t <- gets timerInterval ;;
  match t with
  | Some h => clearInterval h ;; modify (set_timerInterval None)
  | None => ret tt
  end.

(** [numberWords[n - 1].toUpperCase()]: a [TypeError] when the index
    selects no element. *)
Definition numberWordUpper (n : Z) : M string :=
  if decide (1 ≤ n) then
    match numberWords !! Z.to_nat (n - 1) with
    | Some w => ret (toUpperCase w)
    | None => throw
    end
  else throw.

Definition handleTimeUp : M unit :=
  modify (set_answered true) ;;
  modify (set_streak 0) ;;
  n <- gets currentNumber ;;
  word <- numberWordUpper n ;;
  modify (set_feedback (FbTimeUp word)) ;;
  modify (set_nextHidden false).

(** The callback given to [setInterval] (lines 368-386). *)
Definition tick : M unit :=
  modify (λ g, set_timeLeft (timeLeft g - 1) g) ;;
  t <- gets timeLeft ;;
  if decide (t ≤ 0) then
    stopTimer ;;
    a <- gets answered ;;
    if a then ret tt else handleTimeUp
  else ret tt.

Definition startTimer : M unit :=
  modify (set_timeLeft TIMER_DURATION) ;;
  h <- setInterval ;;
  modify (set_timerInterval (Some h)).

(* ===================================================================== *)
(** ** Answer handling ([handleAnswer], lines 284-353) *)
(* ===================================================================== *)

Definition Math_floor (q : Q) : Z := Qfloor q.

(** Lines 306-308. *)
Definition totalPoints (timeLeft streak : Z) : Z :=
  let timeBonus := Math_floor (inject_Z timeLeft * inject_Z 2)%Q in
  let streakBonus := streak * 5 in
  10 + timeBonus + streakBonus.

(** The button argument only receives colours and is left out. The
    function has no [return] with a value: it completes with
    [undefined]. *)
Definition handleAnswer (selectedNum : Z) (config : Config) : M jsval :=
  a <- gets answered ;;
  if a then ret JUndefined else
  modify (set_answered true) ;;
  stopTimer ;;
  cur <- gets currentNumber ;;
  let isCorrect := bool_decide (selectedNum = cur) in
  (if isCorrect then
     t <- gets timeLeft ;;
     s <- gets streak ;;
     let points := totalPoints t s in
     modify (λ g, set_score (score g + points) g) ;;
     modify (λ g, set_streak (streak g + 1) g) ;;
     modify (set_feedback
               (FbCorrect (or_default (correct_message config)
                                      defaultConfig_correct_message)
                          points))
   else
     modify (set_streak 0) ;;
     word <- numberWordUpper cur ;;
     modify (set_feedback
               (FbWrong (or_default (wrong_message config)
                                    defaultConfig_wrong_message)
                        word))) ;;
  modify (set_nextHidden false) ;;
  ret JUndefined.

(* ===================================================================== *)
(** ** Round start (lines 130-158, 233-272, 470-486, 537-591) *)
(* ===================================================================== *)

Definition generateHandsForNumber (num : Z) : M unit :=
  if decide (num ≤ 5) then modify (set_hands [(num, false)])
  else modify (set_hands [(5, true); (num - 5, false)]).

(** [options.forEach((num, i) => ...)]: [colors[i].bg] needs [i < 4] and
    the label needs a number word. *)
Fixpoint renderLoop (i : nat) (options : list Z) : M unit :=
  match options with
  | [] => ret tt
  | num :: rest =>
      (if decide (i < 4)%nat then ret tt else throw) ;;
      _ <- numberWordUpper num ;;
      modify (λ g, set_optionButtons (optionButtons (dom g) ++ [num]) g) ;;
      renderLoop (S i) rest
  end.

Definition renderOptions (options : list Z) : M unit :=
  modify (set_optionButtons []) ;;
  renderLoop 0 options.

Definition generateNewNumber_m : M Z :=
  λ g, let '(n, used, r) := generateNewNumber (usedNumbers g) (rng (host g)) in
       (Normal n, set_rng r (set_usedNumbers used g)).

Definition generateOptions_m (correctNum : Z) : M (list Z) :=
  λ g, let '(opts, r) := generateOptions correctNum (rng (host g)) in
       (Normal opts, set_rng r g).

Definition startNewRound : M unit :=
  modify (set_answered false) ;;
  n <- generateNewNumber_m ;;
  modify (set_currentNumber n) ;;
  modify (set_feedback FbNone) ;;
  modify (set_nextHidden true) ;;
  cur <- gets currentNumber ;;
  generateHandsForNumber cur ;;
  options <- generateOptions_m cur ;;
  renderOptions options ;;
  startTimer.

(** The module-level initial values (lines 26-33), on a page and a host
    in some initial condition with no countdown running yet. *)
Definition initialGame (r : Rng) (h0 : positive) (d : Dom) : Game :=
  mkGame 1 0 0 false None 15 ∅ (mkHost r ∅ h0) d.

(** [initializeGame] registers the next-button listener and starts the
    first round. *)
Definition initializeGame : M unit := startNewRound.

(* ===================================================================== *)
(** ** The event loop *)
(* ===================================================================== *)

Inductive Event :=
| ClickOption (num : Z) (config : Config)   (* handleAnswer(num, btn, config) *)
| TimerFires (h : positive)                 (* the callback of interval h *)
| ClickNext.                                (* startNewRound(config) *)

(** An uncaught exception ends the handler; the page keeps the state
    reached so far. *)
Definition dispatch (e : Event) (g : Game) : Game :=
  match e with
  | ClickOption num config => exec (handleAnswer num config) g
  | TimerFires _ => exec tick g
  | ClickNext => exec startNewRound g
  end.

Definition run (es : list Event) (g : Game) : Game :=
  foldl (λ g e, dispatch e g) g es.

(** What the page lets happen: only a running interval fires, and the
    next button can be clicked only while it is shown. Option clicks are
    not restricted, [handleAnswer] guards itself. *)
Definition enabled (e : Event) (g : Game) : Prop :=
  match e with
  | ClickOption _ _ => True
  | TimerFires h => h ∈ intervals (host g)
  | ClickNext => nextHidden (dom g) = false
  end.

Inductive reachable : Game → Prop :=
| reach_init r h0 d :
    reachable (exec initializeGame (initialGame r h0 d))
| reach_step g e :
    reachable g → enabled e g → reachable (dispatch e g).

(** Events of one round: everything but a click on next. *)
Definition round_event (e : Event) : bool :=
  match e with ClickNext => false | _ => true end.

(** Number of events of [es] at which [answered] goes from false to true. *)
Fixpoint resolutions (es : list Event) (g : Game) : nat :=
  match es with
  | [] => 0
  | e :: es' =>
      let g' := dispatch e g in
      ((if negb (answered g) && answered g' then 1 else 0)
       + resolutions es' g')%nat
  end.

(* ===================================================================== *)
(** ** Invariants of the running game *)
(* ===================================================================== *)

Definition handle_set (t : option positive) : gset positive :=
  match t with Some h => {[h]} | None => ∅ end.

(** The only interval running is the one [timerInterval] holds; a
    resolved round holds none; the next button is shown on resolved
    rounds only. *)
Definition timer_inv (g : Game) : Prop :=
  intervals (host g) = handle_set (timerInterval g)
  ∧ (answered g = true → timerInterval g = None)
  ∧ (nextHidden (dom g) = false → answered g = true).

(** The round shows a number of 1..10 and offers option buttons for
    numbers of 1..10 only. *)
Definition round_inv (g : Game) : Prop :=
  in_1_10 (currentNumber g) ∧ Forall in_1_10 (optionButtons (dom g)).

(* ===================================================================== *)
(** ** Sample runs *)
(* ===================================================================== *)

Definition sample_rng : Rng :=
  mkRng (tape_of [6; 3; 1; 4; 1; 5; 9; 2; 6; 5; 3; 5; 8]%nat) 0.

Definition sample_page : Dom := mkDom FbNone false [] [].

Definition plainConfig : Config := mkConfig None None.

(** The first round of a game: the number is 7, interval 1 is counting. *)
Definition round0 : Game :=
  exec initializeGame (initialGame sample_rng 1%positive sample_page).

(** The first round answered correctly at once. *)
Definition resolved0 : Game := dispatch (ClickOption 7 plainConfig) round0.

(** The second round (the number is 9) of a player with a streak of 1. *)
Definition round1 : Game := dispatch ClickNext resolved0.

(* ===================================================================== *)
(** ** Hand drawing ([generateHandSVG], lines 48-124) *)
(* ===================================================================== *)

(** What the SVG text of one hand depends on: the mirroring transform
    ([isLeft]) and, for each finger, whether it is drawn raised (full
    opacity, active colour, red fingertip) or folded. *)
Record HandSvg := mkHandSvg {
  mirrored : bool;
  thumb : bool;
  indexFinger : bool;
  middle : bool;
  ring : bool;
  pinky : bool
}.

(** The object literal of lines 53-59, keyed by the number of fingers. *)
Definition fingerConfigs : gmap Z (list bool) :=
  list_to_map
    [(1, [false; true; false; false; false]);
     (2, [false; true; true; false; false]);
     (3, [false; true; true; true; false]);
     (4, [false; true; true; true; true]);
     (5, [true; true; true; true; true])].

(** [fingerConfigs[fingers] || [false, false, false, false, false]],
    destructured into the five flags (a missing entry would be
    [undefined], which the template treats as false). *)
Definition generateHandSVG (fingers : Z) (isLeft : bool) : HandSvg :=
  let config :=
    default [false; false; false; false; false] (fingerConfigs !! fingers) in
  let flag i := default false (config !! i) in
  mkHandSvg isLeft (flag 0%nat) (flag 1%nat) (flag 2%nat) (flag 3%nat)
            (flag 4%nat).

(** Number of fingers a drawing shows raised. *)
Definition raised (h : HandSvg) : Z :=
  Z.b2z (thumb h) + Z.b2z (indexFinger h) + Z.b2z (middle h)
  + Z.b2z (ring h) + Z.b2z (pinky h).

(** The drawings [generateHandsForNumber] puts on the page, from the
    arguments of its [generateHandSVG] calls. *)
Definition handsDrawn (hs : list (Z * bool)) : list HandSvg :=
  (λ h, generateHandSVG h.1 h.2) <$> hs.

Definition fingersShown (hs : list (Z * bool)) : Z :=
  foldr (λ h acc, raised h + acc) 0 (handsDrawn hs).
Arguments fingersShown : simpl never.

(* ===================================================================== *)
(** ** Runs of the event loop and of the number selector *)
(* ===================================================================== *)

(** Every event of [es] is enabled in the state it is dispatched in. *)
Fixpoint admissible (es : list Event) (g : Game) : Prop :=
  match es with
  | [] => True
  | e :: es' => enabled e g ∧ admissible es' (dispatch e g)
  end.

(** [n] firings of the interval callback in a row. *)
Definition ticks (n : nat) (g : Game) : Game := Nat.iter n (exec tick) g.

(** A call of [generateNewNumber] that keeps the window: fewer than 8
    numbers in it and one of the first 20 samples outside it. *)
Definition keeps_window (used : gset Z) (g : Rng) : Prop :=
  (size used < 8)%nat ∧ ∃ i, (i < 20)%nat ∧ nth_sample g i ∉ used.

(** [k] successive calls that all keep the window. *)
Fixpoint uncleared (k : nat) (used : gset Z) (g : Rng) : Prop :=
  match k with
  | O => True
  | S k' =>
      keeps_window used g
      ∧ uncleared k' (generateNewNumber used g).1.2 (generateNewNumber used g).2
  end.

(** What holds of the state between any two events of a running game. *)
Record game_inv (g : Game) : Prop := mkGameInv {
  inv_number : in_1_10 (currentNumber g);
  inv_buttons_length : length (optionButtons (dom g)) = 4%nat;
  inv_buttons_distinct : NoDup (optionButtons (dom g));
  inv_buttons_correct : currentNumber g ∈ optionButtons (dom g);
  inv_buttons_range : Forall in_1_10 (optionButtons (dom g));
  inv_fingers : fingersShown (hands (dom g)) = currentNumber g;
  inv_window_current : currentNumber g ∈ usedNumbers g;
  inv_window_size : (size (usedNumbers g) ≤ 8)%nat;
  inv_window_range : ∀ n, n ∈ usedNumbers g → in_1_10 n;
  inv_time : 0 ≤ timeLeft g ≤ 15;
  inv_score : 0 ≤ score g;
  inv_streak : 0 ≤ streak g;
  inv_open :
    answered g = false →
    (∃ h, timerInterval g = Some h) ∧ 1 ≤ timeLeft g
    ∧ nextHidden (dom g) = true ∧ feedback (dom g) = FbNone;
  inv_resolved :
    answered g = true →
    timerInterval g = None ∧ nextHidden (dom g) = false
    ∧ feedback (dom g) ≠ FbNone
}.

(* ===================================================================== *)
(** * Proofs *)
(* ===================================================================== *)

(** Unfolds the handlers and the monad down to state transformers. *)
Ltac js_unfold :=
  unfold exec, outcome, handleAnswer, tick, handleTimeUp, stopTimer,
    startTimer, setInterval, clearInterval, numberWordUpper,
    generateHandsForNumber, bind, gets, modify, ret, throw in *.

(* ===================================================================== *)
(** ** Facts about the option generator *)
(* ===================================================================== *)

Lemma swap_Permutation {A} (i j : nat) (l : list A) : swap i j l ≡ₚ l.
Proof.
  unfold swap.
  destruct (l !! i) as [x|] eqn:Hi; [|done].
  destruct (l !! j) as [y|] eqn:Hj; [|done].
  by apply Permutation_insert_swap.
Qed.

Lemma shuffle_from_Permutation {A} (i : nat) (l : list A) (g : Rng) :
  (shuffle_from i l g).1 ≡ₚ l.
Proof.
  revert l g. induction i as [|i IH]; intros l g; simpl; [done|].
  rewrite IH. apply swap_Permutation.
Qed.

Lemma fisherYates_Permutation {A} (l : list A) (g : Rng) :
  (fisherYates l g).1 ≡ₚ l.
Proof. apply shuffle_from_Permutation. Qed.

Lemma allNumbers_range n : n ∈ allNumbers ↔ in_1_10 n.
Proof.
  unfold allNumbers, in_1_10. rewrite list_elem_of_fmap. split.
  - intros (i & -> & Hi). apply elem_of_seq in Hi. lia.
  - intros Hn. exists (Z.to_nat (n - 1)). split; [lia|].
    apply elem_of_seq. lia.
Qed.

Lemma allNumbers_NoDup : NoDup allNumbers.
Proof.
  unfold allNumbers. apply NoDup_fmap_2; [|apply NoDup_seq].
  intros a b Hab. lia.
Qed.

Lemma filter_ne_absent (c : Z) (l : list Z) :
  c ∉ l → filter (λ n, n ≠ c) l = l.
Proof.
  induction l as [|x l IH]; intros Hc; [done|].
  apply not_elem_of_cons in Hc as [Hx Hl].
  rewrite filter_cons_True by congruence. by rewrite IH.
Qed.

Lemma filter_ne_length (c : Z) (l : list Z) :
  NoDup l → (length l ≤ S (length (filter (λ n, n ≠ c) l)))%nat.
Proof.
  induction 1 as [|x l Hx Hl IH]; [simpl; lia|].
  destruct (decide (x = c)) as [->|Hne].
  - rewrite filter_cons_False by (intros ?; congruence).
    rewrite filter_ne_absent by done. simpl. lia.
  - rewrite filter_cons_True by done. simpl. lia.
Qed.

Lemma add_wrong_take (avail options : list Z) :
  NoDup avail → (∀ x, x ∈ avail → x ∉ options) →
  add_wrong avail options = options ++ take (4 - length options) avail.
Proof.
  intros Hnd. revert options.
  induction Hnd as [|x l Hx Hl IH]; intros options Hfresh; simpl.
  - by rewrite take_nil, app_nil_r.
  - destruct (decide (length options < 4)%nat) as [Hlt|Hge].
    + unfold set_add. rewrite decide_False by (apply Hfresh; left).
      rewrite IH.
      * rewrite length_app. simpl.
        replace (4 - length options)%nat with (S (4 - (length options + 1)))
          by lia.
        simpl. by rewrite <- app_assoc.
      * intros y Hy [Hin| ->%list_elem_of_singleton]%elem_of_app; [|done].
        apply (Hfresh y); [by right|done].
    + replace (4 - length options)%nat with 0%nat by lia.
      by rewrite take_0, app_nil_r.
Qed.

(** The shape of every result: the correct number and three distinct
    other numbers of 1..10, in some order. *)
Lemma generateOptions_shape (correctNum : Z) (g : Rng) :
  ∃ wrong : list Z,
    (generateOptions correctNum g).1 ≡ₚ correctNum :: wrong
    ∧ length wrong = 3%nat
    ∧ NoDup wrong
    ∧ ∀ d, d ∈ wrong → in_1_10 d ∧ d ≠ correctNum.
Proof.
  unfold generateOptions.
  set (avail := filter (λ n, n ≠ correctNum) allNumbers).
  destruct (fisherYates avail g) as [shuffled g1] eqn:Hsh.
  assert (Hperm : shuffled ≡ₚ avail).
  { pose proof (fisherYates_Permutation avail g) as H. by rewrite Hsh in H. }
  assert (Hnd : NoDup shuffled).
  { rewrite Hperm. apply NoDup_filter, allNumbers_NoDup. }
  assert (Hin : ∀ x, x ∈ shuffled → in_1_10 x ∧ x ≠ correctNum).
  { intros x. rewrite Hperm. unfold avail.
    rewrite list_elem_of_filter, allNumbers_range. tauto. }
  assert (Hlen : (9 ≤ length shuffled)%nat).
  { rewrite Hperm. pose proof (filter_ne_length correctNum _ allNumbers_NoDup).
    fold avail in H. change (length allNumbers) with 10%nat in H. lia. }
  exists (take 3 shuffled). split; [|split; [|split]].
  - rewrite fisherYates_Permutation.
    rewrite add_wrong_take; [done|done|].
    intros x Hx ->%list_elem_of_singleton. by apply Hin in Hx as [_ ?].
  - apply length_take_le. lia.
  - eapply sublist_NoDup; [done|apply sublist_take].
  - intros d (i & Hi & _)%elem_of_take. apply Hin.
    by eapply list_elem_of_lookup_2.
Qed.

(* ===================================================================== *)
(** ** Facts about the number selector *)
(* ===================================================================== *)

Lemma random1to10_fst g : (random1to10 g).1 = nth_sample g 0.
Proof. unfold random1to10, nth_sample. simpl. by rewrite Nat.add_0_r. Qed.

Lemma nth_sample_next g k :
  nth_sample (random1to10 g).2 k = nth_sample g (S k).
Proof.
  unfold random1to10, nth_sample. simpl.
  by replace (S (cursor g + k)) with (cursor g + S k)%nat by lia.
Qed.

Lemma nth_sample_range g k : in_1_10 (nth_sample g k).
Proof.
  unfold nth_sample, in_1_10.
  pose proof (Nat.mod_upper_bound (tape g (cursor g + k)) 10). lia.
Qed.

Lemma sample_loop_result attempts used g :
  ∀ n used' g', sample_loop attempts used g = (n, used', g') →
  in_1_10 n ∧
  ((∃ k, (attempts + k < 20)%nat
         ∧ (∀ i, (i < k)%nat → nth_sample g i ∈ used)
         ∧ n = nth_sample g k ∧ (n ∉ used) ∧ used' = used)
   ∨ ((∀ k, (attempts + k < 20)%nat → nth_sample g k ∈ used)
      ∧ used' = ∅)).
Proof.
  funelim (sample_loop attempts used g).
  all: set (g1 := {| tape := tape g; cursor := S (cursor g) |}) in *.
  all: assert (Hnext : ∀ k, nth_sample g1 k = nth_sample g (S k))
         by apply (nth_sample_next g).
  all: assert (Hfst : Z.of_nat (tape g (cursor g) `mod` 10) + 1
                      = nth_sample g 0) by apply (random1to10_fst g).
  - intros n used' g'. pose proof (random1to10_fst g1) as Hn.
    destruct (random1to10 g1) as [n2 g2]. simpl in Hn.
    intros [= <- <- <-]. split.
    + rewrite Hn. apply nth_sample_range.
    + right. split; [|done]. intros k Hk. lia.
  - intros n0 used' g' Hres.
    match goal with IH : ∀ n used' g', sample_loop _ _ _ = _ → _ |- _ =>
      destruct (IH _ _ _ Hres) as [Hrange Hcases] end.
    split; [done|].
    assert (Hmem : nth_sample g 0 ∈ used) by (by rewrite <- Hfst).
    destruct Hcases as [(k & Hk & Hbefore & Hn & Hfresh & Hused)|[Hall Hused]].
    + left. exists (S k). rewrite <- Hnext. repeat split; try done; [lia|].
      intros [|i] Hi; [done|]. rewrite <- Hnext. apply Hbefore. lia.
    + right. split; [|done]. intros [|k] Hk; [done|].
      rewrite <- Hnext. apply Hall. lia.
  - intros n1 used' g' Hres.
    assert (Hfresh : nth_sample g 0 ∉ used) by (by rewrite <- Hfst).
    assert (n1 = nth_sample g 0 ∧ used' = used) as [-> ->]
      by (rewrite <- Hfst; split; congruence).
    split; [apply nth_sample_range|].
    left. exists 0%nat. repeat split; try done; lia.
Qed.

Lemma size_add_le (n : Z) (u : gset Z) :
  (size ({[n]} ∪ u) ≤ S (size u))%nat.
Proof.
  rewrite size_union_alt, size_singleton.
  assert (size (u ∖ {[n]}) ≤ size u)%nat; [|lia].
  by apply subseteq_size, subseteq_difference_l.
Qed.

Lemma generateNewNumber_cases used g :
  let r := generateNewNumber used g in
  let used0 := if decide (8 ≤ size used)%nat then ∅ else used in
  in_1_10 r.1.1 ∧
  ((∃ k, (k < 20)%nat ∧ (∀ i, (i < k)%nat → nth_sample g i ∈ used0)
         ∧ r.1.1 = nth_sample g k ∧ (r.1.1 ∉ used0)
         ∧ r.1.2 = {[r.1.1]} ∪ used0)
   ∨ ((∀ k, (k < 20)%nat → nth_sample g k ∈ used0)
      ∧ r.1.2 = {[r.1.1]})).
Proof.
  unfold generateNewNumber. cbn zeta.
  set (used0 := if decide (8 ≤ size used)%nat then ∅ else used).
  destruct (sample_loop 0 used0 g) as [[n u] g'] eqn:Hloop. cbn [fst snd].
  apply sample_loop_result in Hloop
    as [Hn [(k & Hk & Hbefore & Hnk & Hfresh & ->)|[Hall ->]]].
  - split; [done|]. left. exists k. by repeat split.
  - split; [done|]. right. split; [|by rewrite union_empty_r_L].
    intros k Hk. apply Hall. lia.
Qed.

Lemma generateNewNumber_size used g :
  (size (generateNewNumber used g).1.2 ≤ 8)%nat.
Proof.
  pose proof (generateNewNumber_cases used g) as [_ Hcases]. cbn zeta in Hcases.
  destruct Hcases as [(k & _ & _ & _ & _ & ->)|[_ ->]].
  - etrans; [apply size_add_le|].
    destruct (decide (8 ≤ size used)%nat); [rewrite size_empty|]; lia.
  - rewrite size_singleton. lia.
Qed.

Lemma calls_size k used g :
  (size used ≤ 8)%nat → (size (calls k used g).1.2 ≤ 8)%nat.
Proof.
  revert used g. induction k as [|k IH]; intros used g Hsz; [done|].
  cbn [calls]. pose proof (generateNewNumber_size used g) as Hstep.
  destruct (generateNewNumber used g) as [[n u] g1]. cbn [fst snd] in Hstep.
  specialize (IH u g1 Hstep).
  by destruct (calls k u g1) as [[ns u2] g2].
Qed.

(** C5. Every call of the number selector returns a number of 1..10 and
    adds it to the window; the window never holds more than 8 numbers,
    whatever the number of calls; unless the window was cleared during
    the call (it held 8 numbers or more at entry, or the first 20 samples
    were all rejected), the number returned was not in the window at
    entry and the window only grows by it; when the window was cleared,
    it holds the returned number alone. *)
Theorem generateNewNumber_window (used : gset Z) (g : Rng) :
  let n := (generateNewNumber used g).1.1 in
  let used' := (generateNewNumber used g).1.2 in
  in_1_10 n
  ∧ n ∈ used'
  ∧ (size used' ≤ 8)%nat
  ∧ ((size used < 8)%nat →
     (∃ k, (k < 20)%nat ∧ nth_sample g k ∉ used) →
     (n ∉ used) ∧ used' = {[n]} ∪ used)
  ∧ ((8 ≤ size used)%nat
     ∨ (∀ k, (k < 20)%nat → nth_sample g k ∈ used) →
     used' = {[n]})
  ∧ ∀ k, (size used ≤ 8)%nat → (size (calls k used g).1.2 ≤ 8)%nat.
Proof.
  pose proof (generateNewNumber_cases used g) as [Hn Hcases].
  cbn zeta in *. split; [done|]. split; [|split; [|split; [|split]]].
  - destruct Hcases as [(k & _ & _ & _ & _ & ->)|[_ ->]];
      [apply elem_of_union_l|]; by apply elem_of_singleton.
  - apply generateNewNumber_size.
  - intros Hsz (k & Hk & Hfresh).
    rewrite decide_False in Hcases by lia.
    destruct Hcases as [(k' & _ & _ & _ & Hnew & ->)|[Hall _]]; [done|].
    destruct Hfresh. by apply Hall.
  - intros Hclear.
    destruct Hcases as [(k & Hk & _ & Hnk & Hnew & Hu)|[_ ->]]; [|done].
    destruct Hclear as [Hsz|Hall].
    + rewrite decide_True in Hu by done. by rewrite Hu, union_empty_r_L.
    + destruct (decide (8 ≤ size used)%nat);
        [by rewrite Hu, union_empty_r_L|].
      destruct Hnew. rewrite Hnk. by apply Hall.
  - intros k. apply calls_size.
Qed.

Lemma generateNewNumber_window_witness :
  (size ({[7%Z]} : gset Z) < 8)%nat
  ∧ (∃ k, (k < 20)%nat ∧ (nth_sample sample_rng k ∉ ({[7]} : gset Z)))
  ∧ ((generateNewNumber {[7]} sample_rng).1.1 ∉ ({[7]} : gset Z))
  ∧ (generateNewNumber {[7]} sample_rng).1.2
    = {[(generateNewNumber {[7]} sample_rng).1.1]} ∪ {[7]}.
Proof.
  assert (Hsz : (size ({[7%Z]} : gset Z) < 8)%nat)
    by (rewrite size_singleton; lia).
  assert (Hfree : ∃ k, (k < 20)%nat
                       ∧ (nth_sample sample_rng k ∉ ({[7]} : gset Z))).
  { exists 1%nat. split; [lia|].
    change (nth_sample sample_rng 1) with 4.
    intros Hin%elem_of_singleton. discriminate. }
  split; [exact Hsz|]. split; [exact Hfree|].
  destruct (generateNewNumber_window {[7]} sample_rng)
    as (_ & _ & _ & Hnew & _).
  exact (Hnew Hsz Hfree).
Defined.

(* ===================================================================== *)
(** ** Facts about the handlers *)
(* ===================================================================== *)

Lemma totalPoints_eq t s : totalPoints t s = 10 + t * 2 + s * 5.
Proof.
  unfold totalPoints, Math_floor, Qfloor. simpl. by rewrite Z.div_1_r.
Qed.

Lemma numberWordUpper_defined n g :
  in_1_10 n → ∃ w, numberWordUpper n g = (Normal w, g).
Proof.
  intros [H1 H10]. unfold numberWordUpper. rewrite decide_True by done.
  assert (Hlt : (Z.to_nat (n - 1) < length numberWords)%nat)
    by (simpl; lia).
  apply lookup_lt_is_Some in Hlt as [w ->]. by eexists.
Qed.

Lemma stopTimer_result g :
  stopTimer g
  = (Normal tt,
     match timerInterval g with
     | Some h =>
         set_timerInterval None
           (set_host (mkHost (rng (host g)) (intervals (host g) ∖ {[h]})
                             (nextHandle (host g))) g)
     | None => g
     end).
Proof. js_unfold. by destruct (timerInterval g). Qed.

Lemma handleAnswer_answered sel cfg g :
  answered g = true → handleAnswer sel cfg g = (Normal JUndefined, g).
Proof. intros Ha. js_unfold. by rewrite Ha. Qed.

Lemma handleAnswer_correct cfg g :
  answered g = false →
  handleAnswer (currentNumber g) cfg g
  = (Normal JUndefined,
     set_nextHidden false
       (set_feedback (FbCorrect (or_default (correct_message cfg)
                                            defaultConfig_correct_message)
                                (totalPoints (timeLeft g) (streak g)))
          (set_streak (streak g + 1)
             (set_score (score g + totalPoints (timeLeft g) (streak g))
                (exec stopTimer (set_answered true g)))))).
Proof.
  intros Ha. unfold handleAnswer at 1, bind at 1, gets at 1. rewrite Ha.
  unfold bind at 1, modify at 1. unfold bind at 1, exec.
  rewrite stopTimer_result. cbn [fst snd].
  destruct g as [cur sc st an [h|] tl un ho d]; cbn.
  all: by rewrite bool_decide_true.
Qed.

Lemma handleAnswer_wrong sel cfg g :
  answered g = false → sel ≠ currentNumber g →
  let g1 := set_streak 0 (exec stopTimer (set_answered true g)) in
  handleAnswer sel cfg g
  = match numberWords !! Z.to_nat (currentNumber g - 1) with
    | Some w =>
        if decide (1 ≤ currentNumber g) then
          (Normal JUndefined,
           set_nextHidden false
             (set_feedback (FbWrong (or_default (wrong_message cfg)
                                                defaultConfig_wrong_message)
                                    (toUpperCase w)) g1))
        else (Throw, g1)
    | None => (Throw, g1)
    end.
Proof.
  intros Ha Hne. unfold handleAnswer at 1, bind at 1, gets at 1. rewrite Ha.
  unfold bind at 1, modify at 1. unfold bind at 1, exec.
  rewrite stopTimer_result. cbn [fst snd].
  destruct g as [cur sc st an [h|] tl un ho d]; cbn in *.
  all: rewrite bool_decide_false by done.
  all: unfold numberWordUpper; cbn.
  all: destruct (decide (1 ≤ cur));
         destruct (numberWords !! Z.to_nat (cur - 1)); done.
Qed.

Lemma handleTimeUp_scoring g :
  let g' := exec handleTimeUp g in
  streak g' = 0 ∧ score g' = score g ∧ answered g' = true
  ∧ timerInterval g' = timerInterval g ∧ host g' = host g.
Proof.
  js_unfold. destruct g as [cur sc st an ti tl un ho d]; cbn.
  destruct (decide (1 ≤ cur)); [|done].
  by destruct (numberWords !! Z.to_nat (cur - 1)).
Qed.

(** The interval callback, case by case. *)
Lemma tick_result g :
  exec tick g =
  let g1 := set_timeLeft (timeLeft g - 1) g in
  if decide (timeLeft g - 1 ≤ 0) then
    let g2 := exec stopTimer g1 in
    if answered g then g2 else exec handleTimeUp g2
  else g1.
Proof.
  unfold tick, exec, bind at 1, modify at 1, bind at 1, gets at 1.
  cbn [fst snd]. change (timeLeft (set_timeLeft _ g)) with (timeLeft g - 1).
  destruct (decide (timeLeft g - 1 ≤ 0)); [|done].
  unfold bind at 1. rewrite stopTimer_result. unfold bind, gets.
  destruct g as [cur sc st an [h|] tl un ho d]; cbn; by destruct an.
Qed.

Lemma tick_answered g :
  answered g = true →
  let g' := exec tick g in
  score g' = score g ∧ streak g' = streak g ∧ answered g' = true
  ∧ dom g' = dom g.
Proof.
  intros Ha. rewrite tick_result. cbn zeta. rewrite Ha.
  destruct (decide (timeLeft g - 1 ≤ 0)); [|done].
  unfold exec. rewrite stopTimer_result.
  destruct g as [cur sc st an [h|] tl un ho d]; cbn in *; done.
Qed.

Lemma stopTimer_frame g :
  let s := exec stopTimer g in
  currentNumber s = currentNumber g ∧ score s = score g
  ∧ streak s = streak g ∧ answered s = answered g
  ∧ timeLeft s = timeLeft g ∧ dom s = dom g.
Proof.
  unfold exec. rewrite stopTimer_result.
  by destruct g as [? ? ? ? [h|] ? ? [] ?].
Qed.

Lemma handleTimeUp_frame g :
  let g' := exec handleTimeUp g in
  currentNumber g' = currentNumber g
  ∧ optionButtons (dom g') = optionButtons (dom g).
Proof.
  js_unfold. destruct g as [cur sc st an ti tl un ho []]; cbn.
  destruct (decide (1 ≤ cur)); [|done].
  by destruct (numberWords !! Z.to_nat (cur - 1)).
Qed.

Lemma tick_frame g :
  let g' := exec tick g in
  currentNumber g' = currentNumber g
  ∧ optionButtons (dom g') = optionButtons (dom g).
Proof.
  rewrite tick_result. cbn zeta.
  destruct (decide (timeLeft g - 1 ≤ 0)); [|by destruct g].
  pose proof (stopTimer_frame (set_timeLeft (timeLeft g - 1) g))
    as (Hc & _ & _ & _ & _ & Hd). cbn zeta in *.
  destruct (answered g).
  - rewrite Hc, Hd. by destruct g.
  - pose proof (handleTimeUp_frame
                  (exec stopTimer (set_timeLeft (timeLeft g - 1) g)))
      as [Hc' Hd']. cbn zeta in *. rewrite Hc', Hd', Hc, Hd. by destruct g.
Qed.

(** What an answer on an open round leaves behind, whatever the answer. *)
Lemma handleAnswer_open sel cfg g :
  answered g = false →
  let g' := exec (handleAnswer sel cfg) g in
  answered g' = true ∧ currentNumber g' = currentNumber g
  ∧ optionButtons (dom g') = optionButtons (dom g)
  ∧ (sel ≠ currentNumber g → streak g' = 0 ∧ score g' = score g).
Proof.
  intros Ha.
  pose proof (stopTimer_frame (set_answered true g))
    as (Hc & Hsc & Hst & Han & _ & Hd). cbn zeta in *.
  unfold exec at 1 2 3 4 5.
  destruct (decide (sel = currentNumber g)) as [->|Hne].
  - rewrite handleAnswer_correct by done. cbn [snd].
    destruct (exec stopTimer (set_answered true g)) as [? ? ? ? ? ? ? [] []].
    cbn in *. subst. rewrite <- Hd. cbn. by repeat split.
  - rewrite handleAnswer_wrong by done. cbn zeta.
    destruct (exec stopTimer (set_answered true g)) as [? ? ? ? ? ? ? [] []].
    cbn in *. subst.
    destruct (numberWords !! Z.to_nat (currentNumber g - 1));
      [destruct (decide (1 ≤ currentNumber g))|];
      cbn; rewrite <- Hd; by repeat split.
Qed.


(* ===================================================================== *)
(** ** Facts about the round start and the reachable states *)
(* ===================================================================== *)

Lemma set_optionButtons_id g : set_optionButtons (optionButtons (dom g)) g = g.
Proof. by destruct g as [? ? ? ? ? ? ? ? []]. Qed.

Lemma renderLoop_ok i opts g :
  (i + length opts ≤ 4)%nat → Forall in_1_10 opts →
  renderLoop i opts g
  = (Normal tt, set_optionButtons (optionButtons (dom g) ++ opts) g).
Proof.
  revert i g. induction opts as [|num rest IH]; intros i g Hlen Hall.
  - cbn. by rewrite app_nil_r, set_optionButtons_id.
  - apply Forall_cons in Hall as [Hnum Hrest]. cbn in Hlen.
    cbn [renderLoop]. unfold bind at 1.
    rewrite decide_True by lia. unfold ret at 1. unfold bind at 1.
    destruct (numberWordUpper_defined num g Hnum) as [w ->].
    unfold bind at 1, modify at 1. rewrite IH by (done || lia).
    destruct g as [? ? ? ? ? ? ? ? []]; cbn. by rewrite <- app_assoc.
Qed.

Lemma generateNewNumber_range used g : in_1_10 (generateNewNumber used g).1.1.
Proof. by destruct (generateNewNumber_cases used g) as [? _]. Qed.

Lemma generateOptions_facts correctNum g :
  let options := (generateOptions correctNum g).1 in
  length options = 4%nat ∧ NoDup options ∧ correctNum ∈ options
  ∧ ∀ x, x ∈ options → x = correctNum ∨ (in_1_10 x ∧ x ≠ correctNum).
Proof.
  destruct (generateOptions_shape correctNum g)
    as (wrong & Hperm & Hlen & Hnd & Hin).
  cbn zeta. repeat split.
  - rewrite Hperm. simpl. by rewrite Hlen.
  - rewrite Hperm. apply NoDup_cons. split; [|done].
    intros Hc. by apply Hin in Hc as [_ ?].
  - rewrite Hperm. by left.
  - intros x Hx. rewrite Hperm in Hx.
    apply elem_of_cons in Hx as [->|Hx]; [by left|right; by apply Hin].
Qed.

(** A round start never throws: it ends by starting the countdown on a
    state [s] that differs from [g] in the round data only. *)
Lemma startNewRound_result g :
  ∃ s, startNewRound g = (Normal tt, exec startTimer s)
       ∧ timerInterval s = timerInterval g
       ∧ intervals (host s) = intervals (host g)
       ∧ nextHandle (host s) = nextHandle (host g)
       ∧ answered s = false ∧ nextHidden (dom s) = true
       ∧ score s = score g ∧ streak s = streak g
       ∧ in_1_10 (currentNumber s)
       ∧ Forall in_1_10 (optionButtons (dom s))
       ∧ usedNumbers s
         = (generateNewNumber (usedNumbers g) (rng (host g))).1.2.
Proof.
  pose proof (generateNewNumber_range (usedNumbers g) (rng (host g))) as Hn.
  unfold startNewRound, bind at 1, modify at 1, bind at 1.
  unfold generateNewNumber_m. cbn [usedNumbers set_answered host].
  destruct (generateNewNumber (usedNumbers g) (rng (host g)))
    as [[n u] r]. cbn [fst snd] in Hn.
  unfold bind at 1, modify at 1. unfold bind at 1, modify at 1.
  unfold bind at 1, modify at 1. unfold bind at 1, gets at 1.
  unfold bind at 1.
  match goal with |- context [generateHandsForNumber ?c ?s] =>
    assert (Hh : ∃ hs, generateHandsForNumber c s
                       = (Normal tt, set_hands hs s))
      by (unfold generateHandsForNumber, modify;
          destruct (decide (c ≤ 5)); eauto)
  end.
  destruct Hh as [hs ->]. unfold bind at 1, generateOptions_m.
  match goal with |- context [generateOptions ?c ?rr] =>
    pose proof (generateOptions_facts c rr) as (Hlen & _ & _ & Hin);
    destruct (generateOptions c rr) as [opts r2]
  end.
  cbn [fst] in Hlen, Hin.
  assert (Hopts : Forall in_1_10 opts).
  { apply Forall_forall. intros x Hx.
    destruct (Hin x Hx) as [->|[? _]]; [|done].
    by destruct g as [? ? ? ? ? ? ? [] []]. }
  unfold bind at 1, renderOptions. unfold bind at 1, modify at 1.
  rewrite renderLoop_ok by (done || rewrite Hlen; lia).
  eexists. split; [reflexivity|].
  by destruct g as [? ? ? ? ? ? ? [] []].
Qed.

Lemma startTimer_result s :
  startTimer s
  = (Normal tt,
     set_timerInterval (Some (nextHandle (host s)))
       (set_host (mkHost (rng (host s))
                         ({[nextHandle (host s)]} ∪ intervals (host s))
                         (Pos.succ (nextHandle (host s))))
          (set_timeLeft TIMER_DURATION s))).
Proof. by destruct s as [? ? ? ? ? ? ? [] ?]. Qed.

Lemma timer_inv_resolved s :
  timerInterval s = None → intervals (host s) = ∅ → answered s = true →
  timer_inv s.
Proof. intros Ht Hi Ha. unfold timer_inv. by rewrite Ht, Hi, Ha. Qed.

Lemma timer_inv_startNewRound g :
  timerInterval g = None → intervals (host g) = ∅ →
  timer_inv (exec startNewRound g).
Proof.
  intros Ht Hi.
  destruct (startNewRound_result g)
    as (s & Hs & Hts & His & _ & Has & Hns & _).
  unfold exec. rewrite Hs. cbn [snd]. unfold exec.
  rewrite startTimer_result. cbn [snd].
  destruct s as [? ? ? ? ? ? ? [] []]; cbn in *. subst.
  rewrite Hi, union_empty_r_L. by repeat split.
Qed.

(** [stopTimer] releases the handle the game holds. *)
Lemma stopTimer_releases g :
  intervals (host g) = handle_set (timerInterval g) →
  let s := exec stopTimer g in
  timerInterval s = None ∧ intervals (host s) = ∅
  ∧ answered s = answered g ∧ dom s = dom g
  ∧ score s = score g ∧ streak s = streak g.
Proof.
  intros Hi. unfold exec. rewrite stopTimer_result.
  destruct g as [? ? ? ? [h|] ? ? [] ?]; cbn in *; subst; repeat split.
  apply difference_diag_L.
Qed.

Lemma timer_inv_handleAnswer sel cfg g :
  timer_inv g → timer_inv (exec (handleAnswer sel cfg) g).
Proof.
  intros Hinv. destruct (answered g) eqn:Ha.
  { unfold exec. by rewrite handleAnswer_answered. }
  destruct Hinv as (Hi & _).
  destruct (stopTimer_releases (set_answered true g))
    as (Ht & Hi' & Ha' & _); [by destruct g|].
  unfold exec at 1. destruct (decide (sel = currentNumber g)) as [->|Hne].
  - rewrite handleAnswer_correct by done. cbn [snd].
    destruct (exec stopTimer (set_answered true g))
      as [? ? ? ? ? ? ? [] []]; cbn in *.
    by apply timer_inv_resolved.
  - rewrite handleAnswer_wrong by done. cbn zeta.
    destruct (exec stopTimer (set_answered true g))
      as [? ? ? ? ? ? ? [] []]; cbn in *.
    destruct (numberWords !! Z.to_nat (currentNumber g - 1));
      [destruct (decide (1 ≤ currentNumber g))|];
      by apply timer_inv_resolved.
Qed.

Lemma timer_inv_tick g : timer_inv g → timer_inv (exec tick g).
Proof.
  intros Hinv. rewrite tick_result. cbn zeta.
  destruct (decide (timeLeft g - 1 ≤ 0)).
  - destruct Hinv as (Hi & _).
    destruct (stopTimer_releases (set_timeLeft (timeLeft g - 1) g))
      as (Ht & Hi' & Ha' & _); [by destruct g|].
    change (answered (set_timeLeft (timeLeft g - 1) g)) with (answered g)
      in Ha'.
    destruct (answered g) eqn:Ha.
    + by apply timer_inv_resolved.
    + pose proof (handleTimeUp_scoring
                    (exec stopTimer (set_timeLeft (timeLeft g - 1) g)))
        as (_ & _ & Hans & Hti & Hho).
      apply timer_inv_resolved; [congruence|congruence|done].
  - destruct Hinv as (Hi & Ha & Hn). by destruct g.
Qed.

Lemma reachable_timer_inv g : reachable g → timer_inv g.
Proof.
  induction 1 as [r h0 d|g e Hreach IH Hen].
  - by apply timer_inv_startNewRound.
  - destruct e as [num cfg|h|]; cbn [dispatch].
    + by apply timer_inv_handleAnswer.
    + by apply timer_inv_tick.
    + destruct IH as (Hi & Ha & Hn). cbn in Hen.
      specialize (Ha (Hn Hen)).
      apply timer_inv_startNewRound; [done|]. by rewrite Hi, Ha.
Qed.

Lemma round_inv_dispatch e g : round_inv g → round_inv (dispatch e g).
Proof.
  intros [Hc Hb]. destruct e as [num cfg|h|]; cbn [dispatch].
  - destruct (answered g) eqn:Ha.
    + unfold exec. by rewrite handleAnswer_answered.
    + destruct (handleAnswer_open num cfg g Ha) as (_ & Hc' & Hb' & _).
      unfold round_inv. by rewrite Hc', Hb'.
  - destruct (tick_frame g) as [Hc' Hb']. unfold round_inv.
    by rewrite Hc', Hb'.
  - destruct (startNewRound_result g)
      as (s & Hs & _ & _ & _ & _ & _ & _ & _ & Hcs & Hbs & _).
    unfold exec. rewrite Hs. cbn [snd]. unfold exec.
    rewrite startTimer_result. by destruct s as [? ? ? ? ? ? ? [] []].
Qed.

Lemma reachable_round_inv g : reachable g → round_inv g.
Proof.
  induction 1 as [r h0 d|g e Hreach IH Hen].
  - destruct (startNewRound_result (initialGame r h0 d))
      as (s & Hs & _ & _ & _ & _ & _ & _ & _ & Hcs & Hbs & _).
    unfold initializeGame, exec. rewrite Hs. cbn [snd]. unfold exec.
    rewrite startTimer_result. by destruct s as [? ? ? ? ? ? ? [] []].
  - by apply round_inv_dispatch.
Qed.

Lemma dispatch_answered e g :
  round_event e = true → answered g = true →
  let g' := dispatch e g in
  answered g' = true ∧ score g' = score g ∧ streak g' = streak g
  ∧ dom g' = dom g.
Proof.
  intros He Ha. destruct e as [num cfg|h|]; [| |done]; cbn [dispatch].
  - unfold exec. by rewrite handleAnswer_answered.
  - destruct (tick_answered g Ha) as (? & ? & ? & ?). done.
Qed.

Lemma run_answered es g :
  forallb round_event es = true → answered g = true →
  resolutions es g = 0%nat
  ∧ answered (run es g) = true ∧ score (run es g) = score g
  ∧ streak (run es g) = streak g ∧ dom (run es g) = dom g.
Proof.
  revert g. induction es as [|e es IH]; intros g Hes Ha; [done|].
  apply andb_prop in Hes as [He Hes].
  destruct (dispatch_answered e g He Ha) as (Ha' & Hsc & Hst & Hd).
  destruct (IH (dispatch e g) Hes Ha') as (Hr & ? & ? & ? & ?).
  cbn [resolutions run foldl]. fold (run es (dispatch e g)).
  rewrite Hr, Ha, Ha'. cbn. repeat split; congruence.
Qed.

Lemma resolutions_le_1 es g :
  forallb round_event es = true → (resolutions es g ≤ 1)%nat.
Proof.
  revert g. induction es as [|e es IH]; intros g Hes; [cbn; lia|].
  apply andb_prop in Hes as [He Hes]. cbn [resolutions].
  destruct (answered g) eqn:Ha.
  - destruct (dispatch_answered e g He Ha) as (Ha' & _).
    destruct (run_answered es (dispatch e g) Hes Ha') as (-> & _).
    cbn. lia.
  - destruct (answered (dispatch e g)) eqn:Ha'.
    + destruct (run_answered es (dispatch e g) Hes Ha') as (-> & _).
      cbn. lia.
    + cbn. apply IH. done.
Qed.

(* ===================================================================== *)
(** ** Scoring *)
(* ===================================================================== *)

(** C1. A correct answer on an unresolved round, with [t] seconds left
    and streak [s], awards [10 + floor(t * 2) + s * 5] points: the score
    grows by exactly that, the streak becomes [s + 1], and the feedback
    shows the points. With [t = 15] that is 40 points at streak 0 and 55
    points at streak 3. *)
Theorem handleAnswer_correct_scoring (g : Game) (sel : Z) (cfg : Config) :
  answered g = false → sel = currentNumber g →
  let t := timeLeft g in
  let s := streak g in
  let points := 10 + t * 2 + s * 5 in
  let g' := exec (handleAnswer sel cfg) g in
  totalPoints t s = points
  ∧ score g' = score g + points
  ∧ streak g' = s + 1
  ∧ answered g' = true
  ∧ feedback (dom g')
    = FbCorrect (or_default (correct_message cfg)
                            defaultConfig_correct_message) points
  ∧ (t = 15 → s = 0 → points = 40 ∧ score g' = score g + 40)
  ∧ (t = 15 → s = 3 → points = 55 ∧ score g' = score g + 55).
Proof.
  intros Ha ->. cbn zeta. unfold exec. rewrite handleAnswer_correct by done.
  cbn [snd]. pose proof (stopTimer_frame (set_answered true g))
    as (_ & Hsc & Hst & Han & _). cbn zeta in *.
  rewrite totalPoints_eq.
  destruct (exec stopTimer (set_answered true g)) as [? ? ? ? ? ? ? [] []].
  cbn in *. repeat split; try done; intros; lia.
Qed.

Lemma handleAnswer_correct_scoring_witness :
  answered round0 = false ∧ 7 = currentNumber round0
  ∧ score (exec (handleAnswer 7 plainConfig) round0) = score round0 + 40
  ∧ streak (exec (handleAnswer 7 plainConfig) round0) = 1.
Proof.
  split; [reflexivity|]. split; [reflexivity|].
  destruct (handleAnswer_correct_scoring round0 7 plainConfig
              eq_refl eq_refl) as (_ & _ & Hst & _ & _ & H40 & _).
  split; [|exact Hst].
  exact (proj2 (H40 eq_refl eq_refl)).
Defined.

(** C4. An unresolved round resolved by a wrong answer or by the
    countdown reaching zero ends with the streak at 0 and the score
    untouched. *)
Theorem miss_resets_streak (g : Game) :
  answered g = false →
  (∀ sel cfg, sel ≠ currentNumber g →
     let g' := exec (handleAnswer sel cfg) g in
     answered g' = true ∧ streak g' = 0 ∧ score g' = score g)
  ∧ (timeLeft g ≤ 1 →
     let g' := exec tick g in
     answered g' = true ∧ streak g' = 0 ∧ score g' = score g)
  ∧ (let g' := exec handleTimeUp g in
     answered g' = true ∧ streak g' = 0 ∧ score g' = score g).
Proof.
  intros Ha. split; [|split].
  - intros sel cfg Hne.
    destruct (handleAnswer_open sel cfg g Ha) as (Ha' & _ & _ & Hmiss).
    destruct (Hmiss Hne). done.
  - intros Ht. rewrite tick_result. cbn zeta.
    rewrite decide_True by lia. rewrite Ha.
    pose proof (stopTimer_frame (set_timeLeft (timeLeft g - 1) g))
      as (_ & Hsc & _). cbn zeta in Hsc.
    pose proof (handleTimeUp_scoring
                  (exec stopTimer (set_timeLeft (timeLeft g - 1) g)))
      as (Hst' & Hsc' & Ha' & _). cbn zeta in *.
    rewrite Hst', Hsc', Hsc, Ha'. by destruct g.
  - by destruct (handleTimeUp_scoring g) as (? & ? & ? & _).
Qed.

Lemma miss_resets_streak_witness :
  answered round1 = false
  ∧ streak round1 = 1
  ∧ streak (exec (handleAnswer 4 plainConfig) round1) = 0
  ∧ score (exec (handleAnswer 4 plainConfig) round1) = score round1.
Proof.
  split; [reflexivity|]. split; [reflexivity|].
  destruct (miss_resets_streak round1 eq_refl) as (Hwrong & _).
  assert (Hne : 4 ≠ currentNumber round1) by (vm_compute; discriminate).
  destruct (Hwrong 4 plainConfig Hne) as (_ & Hst & Hsc).
  split; [exact Hst|exact Hsc].
Defined.

(* ===================================================================== *)
(** ** Resolution of a round *)
(* ===================================================================== *)

(** C3. Once a round is resolved ([answered] is true), a further answer
    changes nothing at all, a firing of the countdown (the interval
    callback, which guards its call of [handleTimeUp]) changes neither
    the score, the streak, the flag nor the feedback, and so does any
    series of both; over the events of one round, [answered] goes from
    false to true at most once. *)
Theorem resolution_at_most_once (g : Game) (es : list Event) :
  forallb round_event es = true →
  (resolutions es g ≤ 1)%nat
  ∧ (answered g = true →
     (∀ sel cfg, handleAnswer sel cfg g = (Normal JUndefined, g))
     ∧ (let g' := exec tick g in
        score g' = score g ∧ streak g' = streak g ∧ answered g' = true
        ∧ feedback (dom g') = feedback (dom g))
     ∧ resolutions es g = 0%nat
     ∧ (let g' := run es g in
        score g' = score g ∧ streak g' = streak g ∧ answered g' = true
        ∧ feedback (dom g') = feedback (dom g))).
Proof.
  intros Hes. split; [by apply resolutions_le_1|]. intros Ha.
  split; [|split].
  - intros sel cfg. by apply handleAnswer_answered.
  - destruct (tick_answered g Ha) as (? & ? & ? & Hd). cbn zeta in *.
    by rewrite Hd.
  - destruct (run_answered es g Hes Ha) as (? & ? & ? & ? & Hd).
    cbn zeta. by rewrite Hd.
Qed.

Lemma resolution_at_most_once_witness :
  let es := [ClickOption 7 plainConfig; TimerFires 1%positive;
             ClickOption 3 plainConfig] in
  forallb round_event es = true
  ∧ answered resolved0 = true
  ∧ (resolutions es resolved0 ≤ 1)%nat
  ∧ score (run es resolved0) = score resolved0.
Proof.
  cbn zeta. split; [reflexivity|]. split; [reflexivity|].
  destruct (resolution_at_most_once resolved0
              [ClickOption 7 plainConfig; TimerFires 1%positive;
               ClickOption 3 plainConfig] eq_refl) as (Hle & Hres).
  split; [exact Hle|].
  destruct (Hres eq_refl) as (_ & _ & _ & Hsc & _). exact Hsc.
Defined.

(* ===================================================================== *)
(** ** Options *)
(* ===================================================================== *)

(** C2. For a correct number of 1..10 the generator returns exactly 4
    pairwise distinct numbers of 1..10, the correct one among them; the
    other three are distinct members of 1..10 without the correct one. *)
Theorem generateOptions_four_distinct (correctNum : Z) (g : Rng) :
  in_1_10 correctNum →
  let options := (generateOptions correctNum g).1 in
  length options = 4%nat
  ∧ NoDup options
  ∧ correctNum ∈ options
  ∧ (∀ x, x ∈ options → in_1_10 x)
  ∧ ∃ wrong, options ≡ₚ correctNum :: wrong
             ∧ length wrong = 3%nat ∧ NoDup wrong
             ∧ ∀ d, d ∈ wrong → in_1_10 d ∧ d ≠ correctNum.
Proof.
  intros Hc. cbn zeta.
  destruct (generateOptions_facts correctNum g) as (Hlen & Hnd & Hin & Hall).
  split; [done|]. split; [done|]. split; [done|]. split.
  - intros x Hx. by destruct (Hall x Hx) as [->|[? _]].
  - apply generateOptions_shape.
Qed.

Lemma generateOptions_four_distinct_witness :
  in_1_10 7
  ∧ length (generateOptions 7 sample_rng).1 = 4%nat
  ∧ 7 ∈ (generateOptions 7 sample_rng).1.
Proof.
  assert (H7 : in_1_10 7) by (unfold in_1_10; lia).
  split; [exact H7|].
  destruct (generateOptions_four_distinct 7 sample_rng H7)
    as (Hlen & _ & Hin & _).
  split; [exact Hlen|exact Hin].
Defined.

(** C10. The generator is total on the integers: for every [correctNum],
    in 1..10 or not, it returns 4 pairwise distinct numbers, the correct
    one among them and the others in 1..10; hence all four lie in 1..10
    exactly when the correct number does. *)
Theorem generateOptions_any_integer (correctNum : Z) (g : Rng) :
  let options := (generateOptions correctNum g).1 in
  length options = 4%nat
  ∧ NoDup options
  ∧ correctNum ∈ options
  ∧ (∀ x, x ∈ options → x ≠ correctNum → in_1_10 x)
  ∧ ((∀ x, x ∈ options → in_1_10 x) ↔ in_1_10 correctNum).
Proof.
  cbn zeta.
  destruct (generateOptions_facts correctNum g) as (Hlen & Hnd & Hin & Hall).
  split; [done|]. split; [done|]. split; [done|]. split; [|split].
  - intros x Hx Hne. by destruct (Hall x Hx) as [->|[? _]].
  - intros Hrange. by apply Hrange.
  - intros Hc x Hx. by destruct (Hall x Hx) as [->|[? _]].
Qed.

Lemma round1_reachable : reachable round1.
Proof.
  unfold round1, resolved0, round0.
  apply reach_step; [apply reach_step; [apply reach_init|exact I]|].
  reflexivity.
Qed.

(* ===================================================================== *)
(** ** Answers outside 1..10 and the value of [handleAnswer] *)
(* ===================================================================== *)

(** C6, as stated, fails: the answer 11 on the second sample round is
    taken as an ordinary wrong answer. Nothing is signalled, the round is
    resolved and the streak of 1 is lost. *)
Lemma out_of_range_answer_accepted :
  ¬ in_1_10 11
  ∧ answered round1 = false ∧ streak round1 = 1
  ∧ outcome (handleAnswer 11 plainConfig) round1 = Normal JUndefined
  ∧ answered (exec (handleAnswer 11 plainConfig) round1) = true
  ∧ streak (exec (handleAnswer 11 plainConfig) round1) = 0
  ∧ feedback (dom (exec (handleAnswer 11 plainConfig) round1))
    = FbWrong "Try again!" "NINE".
Proof.
  split; [unfold in_1_10; lia|]. by vm_compute.
Qed.

(** C6, amended. [handleAnswer] does not validate its argument: on an
    unresolved round showing a number of 1..10, an answer outside 1..10
    is handled as any other wrong answer (the round is resolved, the
    countdown stopped, the streak reset, the wrong-answer feedback shown)
    and the call completes normally. No option button carries such a
    number. *)
Theorem out_of_range_answer_is_a_miss (sel : Z) (cfg : Config) (g : Game) :
  ¬ in_1_10 sel → answered g = false → round_inv g →
  (∃ w,
     numberWords !! Z.to_nat (currentNumber g - 1) = Some w
     ∧ handleAnswer sel cfg g
       = (Normal JUndefined,
          set_nextHidden false
            (set_feedback (FbWrong (or_default (wrong_message cfg)
                                               defaultConfig_wrong_message)
                                   (toUpperCase w))
               (set_streak 0 (exec stopTimer (set_answered true g))))))
  ∧ sel ∉ optionButtons (dom g).
Proof.
  intros Hsel Ha [Hcur Hbtn]. split.
  - assert (Hne : sel ≠ currentNumber g) by (by intros ->).
    rewrite handleAnswer_wrong by done. cbn zeta.
    destruct Hcur as [H1 H10].
    assert (Hlt : (Z.to_nat (currentNumber g - 1) < length numberWords)%nat)
      by (simpl; lia).
    apply lookup_lt_is_Some in Hlt as [w Hw]. exists w.
    rewrite Hw. by rewrite decide_True.
  - intros Hin. apply Hsel. by eapply Forall_forall in Hbtn.
Qed.

Lemma out_of_range_answer_is_a_miss_witness :
  ¬ in_1_10 11 ∧ answered round1 = false ∧ round_inv round1
  ∧ 11 ∉ optionButtons (dom round1).
Proof.
  assert (H11 : ¬ in_1_10 11) by (unfold in_1_10; lia).
  assert (Hinv : round_inv round1)
    by exact (reachable_round_inv round1 round1_reachable).
  split; [exact H11|]. split; [reflexivity|]. split; [exact Hinv|].
  exact (proj2 (out_of_range_answer_is_a_miss 11 plainConfig round1
                  H11 eq_refl Hinv)).
Defined.

(** C7, as stated, fails: answering the first sample round hands back
    [undefined], which is no [{isCorrect, pointsAwarded, correctNumber}]
    record. *)
Lemma handleAnswer_returns_no_record :
  answered round0 = false
  ∧ outcome (handleAnswer 7 plainConfig) round0 = Normal JUndefined
  ∧ ¬ is_outcome_record JUndefined.
Proof.
  split; [reflexivity|]. split; [by vm_compute|].
  by intros (b & p & c & ?).
Qed.

(** C7, amended. [handleAnswer] hands back [undefined] in every case.
    On a resolved round the call changes nothing. On an unresolved round
    (showing a number of 1..10) the outcome is left in the state and on
    the page: the round is resolved and the next button shown; a correct
    answer shows the points awarded, which are added to the score; a
    wrong answer shows the word of the correct number and leaves the
    score. *)
Theorem handleAnswer_outcome_in_state (sel : Z) (cfg : Config) (g : Game) :
  round_inv g →
  outcome (handleAnswer sel cfg) g = Normal JUndefined
  ∧ (answered g = true → exec (handleAnswer sel cfg) g = g)
  ∧ (answered g = false →
     let g' := exec (handleAnswer sel cfg) g in
     answered g' = true
     ∧ currentNumber g' = currentNumber g
     ∧ nextHidden (dom g') = false
     ∧ (sel = currentNumber g →
        feedback (dom g')
        = FbCorrect (or_default (correct_message cfg)
                                defaultConfig_correct_message)
                    (totalPoints (timeLeft g) (streak g))
        ∧ score g' = score g + totalPoints (timeLeft g) (streak g))
     ∧ (sel ≠ currentNumber g →
        (∃ w, numberWords !! Z.to_nat (currentNumber g - 1) = Some w
              ∧ feedback (dom g')
                = FbWrong (or_default (wrong_message cfg)
                                      defaultConfig_wrong_message)
                          (toUpperCase w))
        ∧ score g' = score g)).
Proof.
  intros [[H1 H10] _].
  assert (Hlt : (Z.to_nat (currentNumber g - 1) < length numberWords)%nat)
    by (simpl; lia).
  apply lookup_lt_is_Some in Hlt as [w Hw].
  destruct (answered g) eqn:Ha.
  { unfold outcome, exec. rewrite handleAnswer_answered by done.
    by repeat split. }
  pose proof (stopTimer_frame (set_answered true g))
    as (Hc & Hsc & _ & Han & _ & _). cbn zeta in *.
  destruct (decide (sel = currentNumber g)) as [->|Hne].
  - unfold outcome, exec. rewrite handleAnswer_correct by done. cbn [fst snd].
    destruct (exec stopTimer (set_answered true g)) as [? ? ? ? ? ? ? [] []].
    cbn in *. subst. split; [done|]. split; [done|]. intros _.
    split; [done|]. split; [done|]. split; [done|]. by split.
  - unfold outcome, exec. rewrite handleAnswer_wrong by done. cbn zeta.
    rewrite Hw, decide_True by done. cbn [fst snd].
    destruct (exec stopTimer (set_answered true g)) as [? ? ? ? ? ? ? [] []].
    cbn in *. subst. split; [done|]. split; [done|]. intros _.
    split; [done|]. split; [done|]. split; [done|]. split; [done|].
    intros _. split; [|done]. by exists w.
Qed.

Lemma handleAnswer_outcome_in_state_witness :
  round_inv round1
  ∧ outcome (handleAnswer 9 plainConfig) round1 = Normal JUndefined.
Proof.
  assert (Hinv : round_inv round1)
    by exact (reachable_round_inv round1 round1_reachable).
  split; [exact Hinv|].
  exact (proj1 (handleAnswer_outcome_in_state 9 plainConfig round1 Hinv)).
Defined.

(* ===================================================================== *)
(** ** The countdown interval *)
(* ===================================================================== *)

Lemma startNewRound_keeps_intervals g :
  intervals (host g) ⊆ intervals (host (exec startNewRound g)).
Proof.
  destruct (startNewRound_result g) as (s & Hs & _ & His & _).
  unfold exec. rewrite Hs. cbn [snd]. unfold exec.
  rewrite startTimer_result. rewrite <- His.
  destruct s as [? ? ? ? ? ? ? [] ?]; cbn. apply union_subseteq_r.
Qed.

(** C8, as stated, fails: starting a round while the countdown of the
    first sample round is running leaves two intervals running, the old
    one no longer held by [timerInterval]. *)
Lemma startNewRound_duplicates_timer :
  answered round0 = false
  ∧ timerInterval round0 = Some 1%positive
  ∧ intervals (host round0) = {[1%positive]}
  ∧ timerInterval (exec startNewRound round0) = Some 2%positive
  ∧ intervals (host (exec startNewRound round0))
    = {[1%positive; 2%positive]}
  ∧ size (intervals (host (exec startNewRound round0))) = 2%nat.
Proof. by vm_compute. Qed.

(** C8, amended. [startNewRound] releases nothing, it only starts a new
    interval. The handle is released when a round resolves, and the next
    button is shown on resolved rounds only; so in every state the page
    can reach from [initializeGame] (option clicks, firings of running
    intervals, clicks on the shown next button) at most one interval is
    running, it is the one [timerInterval] holds, and none is running
    once the round is resolved. *)
Theorem single_interval_when_gated (g : Game) :
  reachable g →
  (size (intervals (host g)) ≤ 1)%nat
  ∧ intervals (host g) = handle_set (timerInterval g)
  ∧ (answered g = true → timerInterval g = None ∧ intervals (host g) = ∅)
  ∧ (nextHidden (dom g) = false → answered g = true)
  ∧ intervals (host g) ⊆ intervals (host (exec startNewRound g)).
Proof.
  intros Hreach. destruct (reachable_timer_inv g Hreach) as (Hi & Ha & Hn).
  split; [|split; [done|split; [|split; [done|]]]].
  - rewrite Hi. destruct (timerInterval g); cbn.
    + by rewrite size_singleton.
    + rewrite size_empty. lia.
  - intros Hans. specialize (Ha Hans). by rewrite Hi, Ha.
  - apply startNewRound_keeps_intervals.
Qed.

Lemma single_interval_when_gated_witness :
  reachable round1
  ∧ (size (intervals (host round1)) ≤ 1)%nat
  ∧ intervals (host round1) = handle_set (timerInterval round1).
Proof.
  split; [exact round1_reachable|].
  destruct (single_interval_when_gated round1 round1_reachable)
    as (Hsz & Hi & _).
  split; [exact Hsz|exact Hi].
Defined.

(** C9. Stopping the timer is idempotent: with no handle held
    ([timerInterval] is [null]) [stopTimer] changes nothing, and stopping
    twice leaves the same state as stopping once, with no handle held. *)
Theorem stopTimer_idempotent (g : Game) :
  (timerInterval g = None → stopTimer g = (Normal tt, g))
  ∧ exec stopTimer (exec stopTimer g) = exec stopTimer g
  ∧ timerInterval (exec stopTimer g) = None.
Proof.
  unfold exec. rewrite !stopTimer_result. split; [|split].
  - by intros ->.
  - by destruct g as [? ? ? ? [h|] ? ? [] ?].
  - by destruct g as [? ? ? ? [h|] ? ? [] ?].
Qed.

Lemma stopTimer_idempotent_witness :
  timerInterval resolved0 = None
  ∧ stopTimer resolved0 = (Normal tt, resolved0)
  ∧ exec stopTimer (exec stopTimer round0) = exec stopTimer round0.
Proof.
  split; [reflexivity|].
  split.
  - exact (proj1 (stopTimer_idempotent resolved0) eq_refl).
  - exact (proj1 (proj2 (stopTimer_idempotent round0))).
Defined.


(* ===================================================================== *)
(** * Further properties of the code *)
(* ===================================================================== *)

(* ===================================================================== *)
(** ** Hands *)
(* ===================================================================== *)

Lemma fingerConfigs_outside (fingers : Z) :
  ¬ (1 ≤ fingers ≤ 5) → fingerConfigs !! fingers = None.
Proof.
  intros Hout. unfold fingerConfigs.
  cbn [list_to_map foldr uncurry fst snd].
  rewrite !lookup_insert_ne by lia. apply lookup_empty.
Qed.

(** X1. A hand drawn for 1 to 5 fingers shows exactly that many fingers
    raised, the thumb only for 5 and the index finger always; for any
    other number the fallback configuration is drawn, a hand with no
    finger raised. The hand is mirrored exactly when it is a left hand. *)
Theorem generateHandSVG_raised (fingers : Z) (isLeft : bool) :
  let h := generateHandSVG fingers isLeft in
  mirrored h = isLeft
  ∧ raised h = (if decide (1 ≤ fingers ≤ 5) then fingers else 0)
  ∧ thumb h = bool_decide (fingers = 5)
  ∧ indexFinger h = bool_decide (1 ≤ fingers ≤ 5).
Proof.
  cbn zeta. destruct (decide (1 ≤ fingers ≤ 5)) as [Hin|Hout].
  - assert (Hcase : fingers = 1 ∨ fingers = 2 ∨ fingers = 3 ∨ fingers = 4
                    ∨ fingers = 5) by lia.
    rewrite (bool_decide_true (1 ≤ fingers ≤ 5)) by done.
    destruct Hcase as [->|[->|[->|[->| ->]]]]; by vm_compute.
  - unfold generateHandSVG. rewrite fingerConfigs_outside by done.
    rewrite (bool_decide_false (1 ≤ fingers ≤ 5)) by done.
    rewrite bool_decide_false by lia. done.
Qed.

Lemma raised_generateHandSVG fingers isLeft :
  raised (generateHandSVG fingers isLeft)
  = if decide (1 ≤ fingers ≤ 5) then fingers else 0.
Proof.
  destruct (decide (1 ≤ fingers ≤ 5)) as [Hin|Hout].
  - assert (Hcase : fingers = 1 ∨ fingers = 2 ∨ fingers = 3 ∨ fingers = 4
                    ∨ fingers = 5) by lia.
    destruct Hcase as [->|[->|[->|[->| ->]]]]; by vm_compute.
  - unfold generateHandSVG. by rewrite fingerConfigs_outside.
Qed.

Lemma generateHandsForNumber_hands num g :
  hands (dom (exec (generateHandsForNumber num) g))
  = if decide (num ≤ 5) then [(num, false)]
    else [(5, true); (num - 5, false)].
Proof.
  unfold generateHandsForNumber, exec, modify.
  by destruct (decide (num ≤ 5)).
Qed.

Lemma fingersShown_number num g :
  in_1_10 num →
  fingersShown (hands (dom (exec (generateHandsForNumber num) g))) = num.
Proof.
  intros [H1 H10]. rewrite generateHandsForNumber_hands.
  unfold fingersShown, handsDrawn.
  destruct (decide (num ≤ 5)); cbn [fmap list_fmap foldr fst snd].
  all: rewrite !raised_generateHandSVG.
  - rewrite decide_True by lia. lia.
  - rewrite decide_True by lia. rewrite decide_True by lia. lia.
Qed.

(** X2. For a number of 1..10 the hands drawn show exactly that many
    raised fingers: one right hand up to 5, and from 6 on a mirrored
    left hand with all five fingers followed by a right hand with the
    rest. *)
Theorem hands_show_the_number (num : Z) (g : Game) :
  in_1_10 num →
  let hs := hands (dom (exec (generateHandsForNumber num) g)) in
  fingersShown hs = num
  ∧ handsDrawn hs
    = (if decide (num ≤ 5) then [generateHandSVG num false]
       else [generateHandSVG 5 true; generateHandSVG (num - 5) false])
  ∧ Forall (λ h, 1 ≤ raised h ≤ 5) (handsDrawn hs).
Proof.
  intros Hnum. cbn zeta. split; [by apply fingersShown_number|].
  rewrite generateHandsForNumber_hands. destruct Hnum as [H1 H10].
  destruct (decide (num ≤ 5)); (split; [done|]).
  all: cbn [handsDrawn fmap list_fmap fst snd].
  all: repeat (apply Forall_cons; split;
                 [cbn beta; rewrite raised_generateHandSVG, decide_True by lia;
                  lia|]).
  all: by apply Forall_nil.
Qed.

Lemma hands_show_the_number_witness :
  in_1_10 7
  ∧ fingersShown (hands (dom (exec (generateHandsForNumber 7) round0))) = 7.
Proof.
  assert (H7 : in_1_10 7) by (unfold in_1_10; lia).
  split; [exact H7|].
  exact (proj1 (hands_show_the_number 7 round0 H7)).
Defined.

(** X3. Outside 1..10 the drawing no longer shows the number: for a
    number below 1 a single hand with no finger raised is drawn, and
    above 10 the right hand falls back to no finger raised, so that 5
    fingers are shown. *)
Theorem hands_outside_range (num : Z) (g : Game) :
  let hs := hands (dom (exec (generateHandsForNumber num) g)) in
  (num ≤ 0 → length hs = 1%nat ∧ fingersShown hs = 0)
  ∧ (10 < num → length hs = 2%nat ∧ fingersShown hs = 5).
Proof.
  cbn zeta. rewrite generateHandsForNumber_hands. split; intros Hnum.
  - rewrite decide_True by lia. split; [done|].
    unfold fingersShown, handsDrawn. cbn [fmap list_fmap foldr fst snd].
    rewrite raised_generateHandSVG, decide_False by lia. done.
  - rewrite decide_False by lia. split; [done|].
    unfold fingersShown, handsDrawn. cbn [fmap list_fmap foldr fst snd].
    rewrite !raised_generateHandSVG.
    rewrite decide_True by lia. rewrite decide_False by lia. done.
Qed.

Lemma hands_outside_range_witness :
  10 < 12
  ∧ fingersShown (hands (dom (exec (generateHandsForNumber 12) round0))) = 5.
Proof.
  assert (H12 : 10 < 12) by lia.
  split; [exact H12|].
  exact (proj2 (proj2 (hands_outside_range 12 round0) H12)).
Defined.

(* ===================================================================== *)
(** ** The shuffle and the rendering of the options *)
(* ===================================================================== *)

Lemma shuffle_from_rng {A} (i : nat) (l : list A) (g : Rng) :
  tape (shuffle_from i l g).2 = tape g
  ∧ cursor (shuffle_from i l g).2 = (cursor g + i)%nat.
Proof.
  revert l g. induction i as [|i IH]; intros l g; cbn [shuffle_from].
  - split; [done|]. cbn. lia.
  - cbn [randomInt]. destruct (IH (swap (S i) (tape g (cursor g) `mod` (S i + 1)) l)
                                  (mkRng (tape g) (S (cursor g)))) as [Ht Hc].
    rewrite Ht, Hc. cbn. split; [done|lia].
Qed.

(** X4. The Fisher-Yates loop permutes: whatever the random source, the
    shuffled array has the same members with the same multiplicities as
    the array given, hence the same length; shuffling [n] elements takes
    [n - 1] random draws. *)
Theorem fisherYates_shuffles {A} (l : list A) (g : Rng) :
  (fisherYates l g).1 ≡ₚ l
  ∧ length (fisherYates l g).1 = length l
  ∧ tape (fisherYates l g).2 = tape g
  ∧ cursor (fisherYates l g).2 = (cursor g + (length l - 1))%nat.
Proof.
  pose proof (shuffle_from_Permutation (length l - 1) l g) as Hperm.
  destruct (shuffle_from_rng (length l - 1) l g) as [Ht Hc].
  unfold fisherYates. split; [done|]. split; [by rewrite Hperm|]. done.
Qed.





(* ===================================================================== *)
(** ** The number selector over several calls *)
(* ===================================================================== *)

Lemma sample_loop_exact attempts used g :
  (attempts ≤ 20)%nat →
  (∃ k, (attempts + k < 20)%nat
        ∧ (∀ i, (i < k)%nat → nth_sample g i ∈ used)
        ∧ (nth_sample g k ∉ used)
        ∧ sample_loop attempts used g
          = (nth_sample g k, used, mkRng (tape g) (cursor g + k + 1)))
  ∨ ((∀ k, (attempts + k < 20)%nat → nth_sample g k ∈ used)
     ∧ sample_loop attempts used g
       = (nth_sample g (21 - attempts), ∅,
          mkRng (tape g) (cursor g + (22 - attempts)))).
Proof.
  funelim (sample_loop attempts used g); intros Hle.
  all: set (g1 := {| tape := tape g; cursor := S (cursor g) |}) in *.
  all: assert (Hnext : ∀ k, nth_sample g1 k = nth_sample g (S k))
         by apply (nth_sample_next g).
  all: assert (Hfst : Z.of_nat (tape g (cursor g) `mod` 10) + 1
                      = nth_sample g 0) by apply (random1to10_fst g).
  - right. split; [intros; lia|].
    assert (attempts = 20%nat) as -> by lia.
    pose proof (random1to10_fst g1) as Hn. rewrite Hnext in Hn.
    unfold random1to10, randomInt in *. cbn [fst snd tape cursor g1] in *.
    rewrite Hn. do 2 f_equal. lia.
  - assert (Hmem : nth_sample g 0 ∈ used) by (by rewrite <- Hfst).
    match goal with IH : (S attempts ≤ 20)%nat → _ |- _ =>
      destruct IH as [(k & Hk & Hbefore & Hfresh & Hres)|[Hall Hres]];
        [lia|..] end.
    + left. exists (S k). rewrite <- Hnext.
      split; [lia|]. split; [|split; [done|]].
      * intros [|i] Hi; [done|]. rewrite <- Hnext. apply Hbefore. lia.
      * rewrite Hres. cbn [tape cursor g1]. do 2 f_equal. lia.
    + right. split.
      * intros [|k] Hk; [done|]. rewrite <- Hnext. apply Hall. lia.
      * rewrite Hres, Hnext. cbn [tape cursor g1].
        replace (S (21 - S attempts)) with (21 - attempts)%nat by lia.
        do 2 f_equal. lia.
  - assert (Hfresh : nth_sample g 0 ∉ used) by (by rewrite <- Hfst).
    left. exists 0%nat. split; [lia|]. split; [intros; lia|].
    split; [done|]. rewrite Hfst. unfold g1. do 2 f_equal. lia.
Qed.

(** X6. A call of the number selector always comes to an end within 22
    random draws. It returns the first of its first 20 samples that is
    not in the window, having drawn no more than that; if all 20 are
    rejected it draws a 21st sample, drops it, and returns the 22nd. *)
Theorem generateNewNumber_draws (used : gset Z) (g : Rng) :
  let used0 := if decide (8 ≤ size used)%nat then ∅ else used in
  let n := (generateNewNumber used g).1.1 in
  let g' := (generateNewNumber used g).2 in
  tape g' = tape g
  ∧ (cursor g < cursor g' ≤ cursor g + 22)%nat
  ∧ (∀ k, (k < 20)%nat → (∀ i, (i < k)%nat → nth_sample g i ∈ used0) →
          (nth_sample g k ∉ used0) →
          n = nth_sample g k ∧ cursor g' = (cursor g + k + 1)%nat)
  ∧ ((∀ k, (k < 20)%nat → nth_sample g k ∈ used0) →
     n = nth_sample g 21 ∧ cursor g' = (cursor g + 22)%nat).
Proof.
  cbn zeta. unfold generateNewNumber.
  set (used0 := if decide (8 ≤ size used)%nat then ∅ else used).
  destruct (sample_loop_exact 0 used0 g)
    as [(k & Hk & Hbefore & Hfresh & ->)|[Hall ->]]; [lia|..];
    cbn [fst snd tape cursor].
  - split; [done|]. split; [lia|]. split.
    + intros k' Hk' Hbefore' Hfresh'.
      assert (k' = k) as ->; [|done].
      destruct (Nat.lt_trichotomy k' k) as [Hlt|[->|Hgt]]; [|done|].
      * destruct Hfresh'. by apply Hbefore.
      * destruct Hfresh. by apply Hbefore'.
    + intros Hall. destruct Hfresh. apply Hall. lia.
  - split; [done|]. split; [lia|]. split.
    + intros k' Hk' _ Hfresh'. destruct Hfresh'. apply Hall. lia.
    + intros _. split; [done|]. lia.
Qed.

Lemma generateNewNumber_keeps used g :
  keeps_window used g →
  let n := (generateNewNumber used g).1.1 in
  in_1_10 n ∧ (n ∉ used) ∧ (generateNewNumber used g).1.2 = {[n]} ∪ used.
Proof.
  intros [Hsz (i & Hi & Hfresh)].
  destruct (generateNewNumber_cases used g) as [Hn Hcases]. cbn zeta in *.
  rewrite decide_False in Hcases by lia. split; [done|].
  destruct Hcases as [(k & _ & _ & _ & Hnew & Hu)|[Hall _]]; [done|].
  destruct Hfresh. by apply Hall.
Qed.

Lemma calls_succ k used g :
  calls (S k) used g
  = ((generateNewNumber used g).1.1
       :: (calls k (generateNewNumber used g).1.2
                   (generateNewNumber used g).2).1.1,
     (calls k (generateNewNumber used g).1.2 (generateNewNumber used g).2).1.2,
     (calls k (generateNewNumber used g).1.2 (generateNewNumber used g).2).2).
Proof.
  cbn [calls]. destruct (generateNewNumber used g) as [[n u] g1].
  cbn [fst snd]. by destruct (calls k u g1) as [[ns u2] g2].
Qed.

(** X7. Over successive calls that all keep the window, no number comes
    twice: the numbers returned are pairwise distinct numbers of 1..10,
    none of them was in the window at the start, the window grows by
    exactly these numbers, and such a run cannot take the window beyond
    8 numbers. *)
Theorem uncleared_calls_distinct (k : nat) (used : gset Z) (g : Rng) :
  uncleared k used g →
  let ns := (calls k used g).1.1 in
  let used' := (calls k used g).1.2 in
  length ns = k
  ∧ NoDup ns
  ∧ (∀ n, n ∈ ns → in_1_10 n ∧ n ∉ used)
  ∧ used' = list_to_set ns ∪ used
  ∧ size used' = (size used + k)%nat
  ∧ (k = 0%nat ∨ (size used + k ≤ 8)%nat).
Proof.
  revert used g. induction k as [|k IH]; intros used g Hun.
  { cbn. split; [done|]. split; [apply NoDup_nil_2|]. split.
    - intros n Hn. by apply elem_of_nil in Hn.
    - split; [by rewrite union_empty_l_L|]. split; [lia|by left]. }
  destruct Hun as [Hkeep Hrest].
  destruct (generateNewNumber_keeps used g Hkeep) as (Hn & Hfresh & Hu).
  cbn zeta in *. rewrite calls_succ. cbn [fst snd].
  set (n := (generateNewNumber used g).1.1) in *.
  destruct (IH _ _ Hrest) as (Hlen & Hnd & Hin & Hfinal & Hsz & Hcap).
  cbn zeta in *. rewrite Hu in Hlen, Hnd, Hin, Hfinal, Hsz, Hcap.
  set (ns := (calls k ({[n]} ∪ used) (generateNewNumber used g).2).1.1) in *.
  assert (Hsz1 : size ({[n]} ∪ used) = S (size used)).
  { rewrite size_union by (by apply disjoint_singleton_l).
    by rewrite size_singleton. }
  rewrite Hu. fold ns. split; [cbn [length]; by f_equal|]. split.
  { apply NoDup_cons. split; [|done]. intros Hmem.
    destruct (Hin n Hmem) as [_ Hnot]. apply Hnot.
    by apply elem_of_union_l, elem_of_singleton. }
  split.
  { intros m [->|Hm]%elem_of_cons; [done|].
    destruct (Hin m Hm) as [? Hnot]. split; [done|].
    intros Hused. apply Hnot. by apply elem_of_union_r. }
  split.
  { rewrite Hfinal. cbn [list_to_set foldr].
    rewrite (assoc_L (∪)). f_equal. apply (comm_L (∪)). }
  split; [rewrite Hsz, Hsz1; lia|]. right.
  destruct Hkeep as [Hlt _]. destruct Hcap as [->|Hcap]; lia.
Qed.

Lemma uncleared_calls_distinct_witness :
  uncleared 2 ∅ sample_rng
  ∧ NoDup (calls 2 ∅ sample_rng).1.1
  ∧ size (calls 2 ∅ sample_rng).1.2 = 2%nat.
Proof.
  assert (Hun : uncleared 2 ∅ sample_rng).
  { split; [split; [rewrite size_empty; lia|]|].
    { exists 0%nat. split; [lia|]. apply not_elem_of_empty. }
    split; [split|exact I].
    - change (generateNewNumber ∅ sample_rng).1.2 with ({[7]} : gset Z).
      rewrite size_singleton. lia.
    - exists 0%nat. split; [lia|].
      change (generateNewNumber ∅ sample_rng).1.2 with ({[7]} : gset Z).
      change (nth_sample (generateNewNumber ∅ sample_rng).2 0) with 4.
      intros Hin%elem_of_singleton. discriminate. }
  split; [exact Hun|].
  destruct (uncleared_calls_distinct 2 ∅ sample_rng Hun)
    as (_ & Hnd & _ & _ & Hsz & _).
  split; [exact Hnd|]. rewrite Hsz, size_empty. reflexivity.
Defined.

(* ===================================================================== *)
(** ** Rounds *)
(* ===================================================================== *)

Lemma startNewRound_fields g :
  let nu := generateNewNumber (usedNumbers g) (rng (host g)) in
  let op := generateOptions nu.1.1 nu.2 in
  let h := nextHandle (host g) in
  ∃ g', startNewRound g = (Normal tt, g')
  ∧ currentNumber g' = nu.1.1
  ∧ usedNumbers g' = nu.1.2
  ∧ optionButtons (dom g') = op.1
  ∧ rng (host g') = op.2
  ∧ hands (dom g') = hands (dom (exec (generateHandsForNumber nu.1.1) g))
  ∧ feedback (dom g') = FbNone
  ∧ nextHidden (dom g') = true
  ∧ answered g' = false
  ∧ timeLeft g' = TIMER_DURATION
  ∧ timerInterval g' = Some h
  ∧ intervals (host g') = {[h]} ∪ intervals (host g)
  ∧ nextHandle (host g') = Pos.succ h
  ∧ score g' = score g
  ∧ streak g' = streak g.
Proof.
  cbn zeta.
  pose proof (generateNewNumber_range (usedNumbers g) (rng (host g))) as Hn.
  rewrite generateHandsForNumber_hands.
  unfold startNewRound, bind at 1, modify at 1, bind at 1.
  unfold generateNewNumber_m. cbn [usedNumbers set_answered host].
  destruct (generateNewNumber (usedNumbers g) (rng (host g)))
    as [[n u] r]. cbn [fst snd] in *.
  unfold bind at 1, modify at 1. unfold bind at 1, modify at 1.
  unfold bind at 1, modify at 1. unfold bind at 1, gets at 1.
  unfold bind at 1.
  match goal with |- context [generateHandsForNumber ?c ?s] =>
    assert (Hh : generateHandsForNumber c s
                 = (Normal tt,
                    set_hands (if decide (c ≤ 5) then [(c, false)]
                               else [(5, true); (c - 5, false)]) s))
      by (unfold generateHandsForNumber, modify;
          by destruct (decide (c ≤ 5)))
  end.
  rewrite Hh. clear Hh. unfold bind at 1, generateOptions_m.
  match goal with |- context [generateOptions ?c ?rr] =>
    change (generateOptions c rr) with (generateOptions n r)
  end.
  pose proof (generateOptions_facts n r) as (Hlen & _ & _ & Hin).
  destruct (generateOptions n r) as [opts r2]. cbn [fst snd] in *.
  assert (Hopts : Forall in_1_10 opts).
  { apply Forall_forall. intros x Hx.
    by destruct (Hin x Hx) as [->|[? _]]. }
  unfold bind at 1, renderOptions. unfold bind at 1, modify at 1.
  rewrite renderLoop_ok by (done || rewrite Hlen; lia).
  rewrite startTimer_result. eexists. split; [reflexivity|].
  by destruct g as [? ? ? ? ? ? ? [] []].
Qed.

Lemma generateNewNumber_member used g :
  let r := generateNewNumber used g in
  r.1.1 ∈ r.1.2 ∧ ∀ m, m ∈ r.1.2 → m = r.1.1 ∨ m ∈ used.
Proof.
  destruct (generateNewNumber_cases used g) as [_ Hcases]. cbn zeta in *.
  destruct Hcases as [(k & _ & _ & _ & _ & ->)|[_ ->]].
  - split; [by apply elem_of_union_l, elem_of_singleton|].
    intros m [->%elem_of_singleton|Hm]%elem_of_union; [by left|right].
    destruct (decide (8 ≤ size used)%nat); [|done].
    by apply elem_of_empty in Hm.
  - split; [by apply elem_of_singleton|].
    intros m ->%elem_of_singleton. by left.
Qed.

Lemma game_inv_startNewRound g :
  0 ≤ score g → 0 ≤ streak g → (∀ m, m ∈ usedNumbers g → in_1_10 m) →
  game_inv (exec startNewRound g).
Proof.
  intros Hscore Hstreak Hrange.
  destruct (startNewRound_fields g)
    as (g' & Hrun & Hcur & Hused & Hbtn & _ & Hhands & Hfb & Hnh & Ha & Htl
        & Hti & _ & _ & Hsc & Hst).
  cbn zeta in *. unfold exec. rewrite Hrun. cbn [snd].
  pose proof (generateNewNumber_range (usedNumbers g) (rng (host g))) as Hn.
  destruct (generateNewNumber_member (usedNumbers g) (rng (host g)))
    as [Hmem Hsub].
  cbn zeta in *.
  set (nu := generateNewNumber (usedNumbers g) (rng (host g))) in *.
  destruct (generateOptions_facts nu.1.1 nu.2) as (Hlen & Hnd & Hin & Hall).
  cbn zeta in *.
  constructor; rewrite ?Hcur, ?Hused, ?Hbtn, ?Hhands, ?Htl, ?Hsc, ?Hst;
    try done.
  - apply Forall_forall. intros x Hx. by destruct (Hall x Hx) as [->|[? _]].
  - by apply fingersShown_number.
  - apply generateNewNumber_size.
  - intros m Hm. destruct (Hsub m Hm) as [->|?]; [done|by apply Hrange].
  - intros _. rewrite Hti, Hnh, Hfb. unfold TIMER_DURATION.
    split; [by eexists|]. split; [lia|done].
  - by rewrite Ha.
Qed.

Lemma game_inv_handleAnswer sel cfg g :
  game_inv g →
  game_inv (exec (handleAnswer sel cfg) g)
  ∧ score g ≤ score (exec (handleAnswer sel cfg) g)
  ∧ outcome (handleAnswer sel cfg) g = Normal JUndefined.
Proof.
  intros Hinv. destruct (answered g) eqn:Ha.
  { unfold exec, outcome. rewrite handleAnswer_answered by done.
    cbn [fst snd]. split; [done|]. split; [lia|done]. }
  destruct (inv_open g Hinv Ha) as ((h & Hh) & Ht & Hnh & Hfb).
  destruct (numberWordUpper_defined (currentNumber g) g (inv_number g Hinv))
    as [w Hw].
  assert (Hword : ∃ w, numberWords !! Z.to_nat (currentNumber g - 1) = Some w).
  { destruct (inv_number g Hinv).
    apply lookup_lt_is_Some. simpl. lia. }
  destruct Hword as [w' Hw'].
  unfold exec, outcome. destruct (decide (sel = currentNumber g)) as [->|Hne].
  - rewrite handleAnswer_correct by done. unfold exec.
    rewrite stopTimer_result, totalPoints_eq. cbn [fst snd].
    destruct Hinv.
    destruct g as [cur sc st an ti tl un [r iv nh] [fb hid ob hs]].
    cbn in *. subst an ti hid fb. cbn.
    split; [|split; [lia|done]].
    constructor; cbn; try done; try lia.
  - rewrite handleAnswer_wrong by done. cbn zeta. rewrite Hw'.
    rewrite decide_True by (by destruct (inv_number g Hinv)).
    unfold exec. rewrite stopTimer_result. cbn [fst snd].
    destruct Hinv.
    destruct g as [cur sc st an ti tl un [r iv nh] [fb hid ob hs]].
    cbn in *. subst an ti hid fb. cbn.
    split; [|split; [lia|done]].
    constructor; cbn; try done; try lia.
Qed.

Lemma handleTimeUp_defined g :
  in_1_10 (currentNumber g) →
  ∃ w, numberWords !! Z.to_nat (currentNumber g - 1) = Some w
       ∧ handleTimeUp g
         = (Normal tt,
            set_nextHidden false
              (set_feedback (FbTimeUp (toUpperCase w))
                 (set_streak 0 (set_answered true g)))).
Proof.
  intros [H1 H10].
  assert (Hlt : (Z.to_nat (currentNumber g - 1) < length numberWords)%nat)
    by (simpl; lia).
  apply lookup_lt_is_Some in Hlt as [w Hw]. exists w. split; [done|].
  js_unfold. destruct g as [cur ? ? ? ? ? ? ? ?]. cbn in *.
  rewrite decide_True by done. by rewrite Hw.
Qed.

Lemma tick_exact g :
  tick g =
  let g1 := set_timeLeft (timeLeft g - 1) g in
  if decide (timeLeft g - 1 ≤ 0) then
    if answered g then (Normal tt, exec stopTimer g1)
    else handleTimeUp (exec stopTimer g1)
  else (Normal tt, g1).
Proof.
  unfold tick, bind at 1, modify at 1, bind at 1, gets at 1.
  change (timeLeft (set_timeLeft _ g)) with (timeLeft g - 1). cbn zeta.
  destruct (decide (timeLeft g - 1 ≤ 0)); [|done].
  unfold bind at 1, exec. rewrite stopTimer_result. unfold bind, gets.
  destruct g as [cur sc st an [h|] tl un ho d]; cbn; by destruct an.
Qed.

Lemma game_inv_tick g :
  game_inv g → answered g = false →
  game_inv (exec tick g)
  ∧ score (exec tick g) = score g
  ∧ outcome tick g = Normal tt.
Proof.
  intros Hinv Ha.
  destruct (inv_open g Hinv Ha) as ((h & Hh) & Ht & Hnh & Hfb).
  unfold exec, outcome. rewrite tick_exact. cbn zeta. rewrite Ha.
  destruct (decide (timeLeft g - 1 ≤ 0)) as [Hzero|Hmore].
  - destruct (handleTimeUp_defined
                (exec stopTimer (set_timeLeft (timeLeft g - 1) g)))
      as (w & _ & ->).
    { destruct (stopTimer_frame (set_timeLeft (timeLeft g - 1) g)) as [-> _].
      apply (inv_number g Hinv). }
    unfold exec. rewrite stopTimer_result. cbn [fst snd].
    destruct Hinv.
    destruct g as [cur sc st an ti tl un [r iv nh] [fb hid ob hs]].
    cbn in *. subst an ti hid fb. cbn.
    split; [|done]. constructor; cbn; try done; lia.
  - cbn [fst snd]. destruct Hinv.
    destruct g as [cur sc st an ti tl un [r iv nh] [fb hid ob hs]].
    cbn in *. subst an ti hid fb.
    split; [|done]. constructor; cbn; try done; try lia.
    intros _. split; [by eexists|]. split; [lia|done].
Qed.

Lemma game_inv_dispatch e g :
  game_inv g → timer_inv g → enabled e g →
  game_inv (dispatch e g) ∧ score g ≤ score (dispatch e g).
Proof.
  intros Hinv Htimer Hen. destruct e as [num cfg|h|]; cbn [dispatch].
  - by destruct (game_inv_handleAnswer num cfg g Hinv) as (? & ? & _).
  - cbn in Hen. destruct Htimer as (Hi & _).
    assert (Ha : answered g = false).
    { destruct (answered g) eqn:Ha; [|done].
      destruct (inv_resolved g Hinv Ha) as (Hnone & _).
      rewrite Hi, Hnone in Hen. by apply elem_of_empty in Hen. }
    destruct (game_inv_tick g Hinv Ha) as (? & -> & _). split; [done|lia].
  - destruct (startNewRound_fields g) as (g' & Hrun & Hfields).
    split.
    + apply game_inv_startNewRound; by destruct Hinv.
    + unfold exec. rewrite Hrun. cbn [snd].
      destruct Hfields as (_&_&_&_&_&_&_&_&_&_&_&_&Hsc&_). rewrite Hsc. lia.
Qed.

Lemma reachable_game_inv g : reachable g → game_inv g.
Proof.
  induction 1 as [r h0 d|g e Hreach IH Hen].
  - apply game_inv_startNewRound; cbn; try lia.
    intros m Hm. by apply elem_of_empty in Hm.
  - apply game_inv_dispatch; [done| |done]. by apply reachable_timer_inv.
Qed.

(** X8. Starting a round never throws, whatever the state it is called
    in. It leaves an unresolved round with 15 seconds on the clock: a
    number of 1..10 recorded in the window, four pairwise distinct option
    buttons for numbers of 1..10 with the number among them, hands that
    show the number, an empty feedback box, the next button hidden and a
    new interval held in [timerInterval]; score and streak are kept. *)
Theorem startNewRound_starts_a_round (g : Game) :
  let g' := exec startNewRound g in
  let h := nextHandle (host g) in
  outcome startNewRound g = Normal tt
  ∧ answered g' = false
  ∧ timeLeft g' = 15
  ∧ in_1_10 (currentNumber g')
  ∧ currentNumber g' ∈ usedNumbers g'
  ∧ length (optionButtons (dom g')) = 4%nat
  ∧ NoDup (optionButtons (dom g'))
  ∧ currentNumber g' ∈ optionButtons (dom g')
  ∧ Forall in_1_10 (optionButtons (dom g'))
  ∧ fingersShown (hands (dom g')) = currentNumber g'
  ∧ feedback (dom g') = FbNone
  ∧ nextHidden (dom g') = true
  ∧ timerInterval g' = Some h
  ∧ intervals (host g') = {[h]} ∪ intervals (host g)
  ∧ score g' = score g
  ∧ streak g' = streak g.
Proof.
  cbn zeta.
  destruct (startNewRound_fields g)
    as (g' & Hrun & Hcur & Hused & Hbtn & _ & Hhands & Hfb & Hnh & Ha & Htl
        & Hti & Hint & _ & Hsc & Hst).
  cbn zeta in *. unfold exec, outcome. rewrite Hrun. cbn [fst snd].
  pose proof (generateNewNumber_range (usedNumbers g) (rng (host g))) as Hn.
  destruct (generateNewNumber_member (usedNumbers g) (rng (host g)))
    as [Hmem _].
  cbn zeta in *.
  set (nu := generateNewNumber (usedNumbers g) (rng (host g))) in *.
  destruct (generateOptions_facts nu.1.1 nu.2) as (Hlen & Hnd & Hin & Hall).
  cbn zeta in *.
  rewrite Hcur, Hused, Hbtn, Hhands, Hfb, Hnh, Ha, Htl, Hti, Hint, Hsc, Hst.
  split; [done|]. split; [done|]. split; [done|]. split; [done|].
  split; [done|]. split; [done|]. split; [done|]. split; [done|].
  split.
  { apply Forall_forall. intros x Hx. by destruct (Hall x Hx) as [->|[? _]]. }
  split; [by apply fingersShown_number|]. done.
Qed.

(** X9. Between any two events of a running game the page is that of a
    well-formed round: the number to guess is one of 1..10, there are
    exactly four pairwise distinct option buttons, all for numbers of
    1..10 and one of them for the number to guess, and the hands show
    exactly that number of raised fingers. The window holds the number
    to guess, numbers of 1..10 only, and no more than 8 of them. *)
Theorem reachable_round_well_formed (g : Game) :
  reachable g →
  in_1_10 (currentNumber g)
  ∧ length (optionButtons (dom g)) = 4%nat
  ∧ NoDup (optionButtons (dom g))
  ∧ currentNumber g ∈ optionButtons (dom g)
  ∧ Forall in_1_10 (optionButtons (dom g))
  ∧ fingersShown (hands (dom g)) = currentNumber g
  ∧ currentNumber g ∈ usedNumbers g
  ∧ (size (usedNumbers g) ≤ 8)%nat
  ∧ (∀ n, n ∈ usedNumbers g → in_1_10 n).
Proof.
  intros Hreach. by destruct (reachable_game_inv g Hreach).
Qed.

Lemma reachable_round_well_formed_witness :
  reachable round1
  ∧ currentNumber round1 ∈ optionButtons (dom round1)
  ∧ fingersShown (hands (dom round1)) = currentNumber round1.
Proof.
  split; [exact round1_reachable|].
  destruct (reachable_round_well_formed round1 round1_reachable)
    as (_ & _ & _ & Hin & _ & Hf & _).
  split; [exact Hin|exact Hf].
Defined.

(** X10. No handler throws in a running game: in every reachable state
    an option click, a firing of the interval callback, a direct
    time-up and a round start all run to their end. (The number words
    and colour sets they index are always there.) *)
Theorem handlers_never_throw (g : Game) :
  reachable g →
  (∀ sel cfg, outcome (handleAnswer sel cfg) g = Normal JUndefined)
  ∧ outcome tick g = Normal tt
  ∧ outcome handleTimeUp g = Normal tt
  ∧ outcome startNewRound g = Normal tt.
Proof.
  intros Hreach. pose proof (reachable_game_inv g Hreach) as Hinv.
  split; [|split; [|split]].
  - intros sel cfg.
    by destruct (game_inv_handleAnswer sel cfg g Hinv) as (_ & _ & ?).
  - destruct (answered g) eqn:Ha.
    + unfold outcome. rewrite tick_exact. cbn zeta. rewrite Ha.
      by destruct (decide (timeLeft g - 1 ≤ 0)).
    + by destruct (game_inv_tick g Hinv Ha) as (_ & _ & ?).
  - destruct (handleTimeUp_defined g (inv_number g Hinv)) as (w & _ & Hrun).
    unfold outcome. by rewrite Hrun.
  - destruct (startNewRound_fields g) as (g' & Hrun & _).
    unfold outcome. by rewrite Hrun.
Qed.

Lemma handlers_never_throw_witness :
  reachable round1 ∧ outcome tick round1 = Normal tt.
Proof.
  split; [exact round1_reachable|].
  exact (proj1 (proj2 (handlers_never_throw round1 round1_reachable))).
Defined.

(** X11. A running game is always in one of two phases and never stuck.
    Either the round is unresolved: exactly one interval is counting
    down, between 1 and 15 seconds are left, the feedback box is empty
    and the next button hidden. Or the round is resolved: no interval is
    running, feedback is shown and the next button is shown, so the
    next round can be started. *)
Theorem round_phase (g : Game) :
  reachable g →
  (answered g = false
   ∧ (∃ h, timerInterval g = Some h ∧ intervals (host g) = {[h]}
           ∧ enabled (TimerFires h) g)
   ∧ 1 ≤ timeLeft g ≤ 15
   ∧ feedback (dom g) = FbNone
   ∧ nextHidden (dom g) = true)
  ∨ (answered g = true
     ∧ timerInterval g = None ∧ intervals (host g) = ∅
     ∧ 0 ≤ timeLeft g ≤ 15
     ∧ feedback (dom g) ≠ FbNone
     ∧ enabled ClickNext g).
Proof.
  intros Hreach. pose proof (reachable_game_inv g Hreach) as Hinv.
  destruct (reachable_timer_inv g Hreach) as (Hi & _).
  pose proof (inv_time g Hinv) as Htime.
  destruct (answered g) eqn:Ha; [right|left].
  - destruct (inv_resolved g Hinv Ha) as (Hnone & Hnh & Hfb).
    rewrite Hnone in Hi. repeat split; (done || lia).
  - destruct (inv_open g Hinv Ha) as ((h & Hh) & Ht & Hnh & Hfb).
    rewrite Hh in Hi. cbn in Hi. split; [done|]. split.
    + exists h. split; [done|]. split; [done|]. cbn. rewrite Hi.
      by apply elem_of_singleton.
    + split; [lia|done].
Qed.

Lemma round_phase_witness :
  reachable resolved0
  ∧ answered resolved0 = true ∧ enabled ClickNext resolved0.
Proof.
  assert (Hreach : reachable resolved0).
  { unfold resolved0, round0. apply reach_step; [apply reach_init|exact I]. }
  split; [exact Hreach|].
  destruct (round_phase resolved0 Hreach)
    as [(Ha & _)|(Ha & _ & _ & _ & _ & Hnext)].
  - change (true = false) in Ha. discriminate Ha.
  - split; [exact Ha|exact Hnext].
Defined.

(* ===================================================================== *)
(** ** Score, countdown and the succession of rounds *)
(* ===================================================================== *)

Lemma run_admissible es g :
  reachable g → admissible es g →
  reachable (run es g) ∧ score g ≤ score (run es g).
Proof.
  revert g. induction es as [|e es IH]; intros g Hreach Hadm.
  { split; [done|]. cbn. lia. }
  destruct Hadm as [Hen Hadm].
  assert (Hnext : reachable (dispatch e g)) by (by apply reach_step).
  destruct (IH _ Hnext Hadm) as [Hr Hsc].
  destruct (game_inv_dispatch e g (reachable_game_inv g Hreach)
              (reachable_timer_inv g Hreach) Hen) as [_ Hstep].
  cbn [run foldl]. fold (run es (dispatch e g)). split; [done|lia].
Qed.

(** X12. Points are never taken back: score and streak are never
    negative in a running game, and over any series of events the page
    allows the score can only grow. *)
Theorem score_never_decreases (g : Game) (es : list Event) :
  reachable g → admissible es g →
  0 ≤ score g ∧ 0 ≤ streak g
  ∧ score g ≤ score (run es g)
  ∧ 0 ≤ streak (run es g).
Proof.
  intros Hreach Hadm. destruct (run_admissible es g Hreach Hadm) as [Hr Hsc].
  pose proof (reachable_game_inv g Hreach) as Hinv.
  pose proof (reachable_game_inv _ Hr) as Hinv'.
  split; [apply (inv_score g Hinv)|]. split; [apply (inv_streak g Hinv)|].
  split; [done|apply (inv_streak _ Hinv')].
Qed.

Lemma score_never_decreases_witness :
  let es := [ClickOption 4 plainConfig; ClickNext] in
  reachable round1 ∧ admissible es round1
  ∧ score round1 ≤ score (run es round1).
Proof.
  cbn zeta.
  assert (Hadm : admissible [ClickOption 4 plainConfig; ClickNext] round1).
  { split; [exact I|]. split; [reflexivity|exact I]. }
  split; [exact round1_reachable|]. split; [exact Hadm|].
  destruct (score_never_decreases round1
              [ClickOption 4 plainConfig; ClickNext] round1_reachable Hadm)
    as (_ & _ & Hsc & _).
  exact Hsc.
Defined.

(** X13. In a running game a correct answer always earns a time bonus:
    on an unresolved round at least one second is left, so the points
    awarded lie between [12 + 5 * streak] and [40 + 5 * streak]. *)
Theorem correct_answer_points_bounds (g : Game) (cfg : Config) :
  reachable g → answered g = false →
  let g' := exec (handleAnswer (currentNumber g) cfg) g in
  12 + 5 * streak g ≤ score g' - score g ≤ 40 + 5 * streak g
  ∧ 12 ≤ score g' - score g.
Proof.
  intros Hreach Ha. pose proof (reachable_game_inv g Hreach) as Hinv.
  destruct (inv_open g Hinv Ha) as (_ & Ht & _).
  pose proof (inv_time g Hinv) as Htime.
  pose proof (inv_streak g Hinv) as Hst.
  cbn zeta. unfold exec. rewrite handleAnswer_correct by done.
  rewrite totalPoints_eq. cbn [snd].
  destruct (stopTimer_frame (set_answered true g))
    as (_ & Hsc & _). cbn zeta in Hsc.
  destruct (exec stopTimer (set_answered true g)) as [? ? ? ? ? ? ? [] []].
  cbn in *. lia.
Qed.

Lemma correct_answer_points_bounds_witness :
  reachable round1 ∧ answered round1 = false
  ∧ 12 ≤ score (exec (handleAnswer (currentNumber round1) plainConfig) round1)
         - score round1.
Proof.
  split; [exact round1_reachable|]. split; [reflexivity|].
  exact (proj2 (correct_answer_points_bounds round1 plainConfig
                  round1_reachable eq_refl)).
Defined.

Lemma ticks_before (n k : nat) g :
  timeLeft g = Z.of_nat n → (k < n)%nat →
  ticks k g = set_timeLeft (timeLeft g - Z.of_nat k) g.
Proof.
  intros Hn. induction k as [|k IH]; intros Hk.
  - cbn. rewrite Z.sub_0_r. by destruct g.
  - change (ticks (S k) g) with (exec tick (ticks k g)). rewrite IH by lia.
    rewrite tick_result. cbn zeta.
    change (timeLeft (set_timeLeft ?x g)) with x.
    rewrite decide_False by lia.
    replace (timeLeft g - Z.of_nat k - 1) with (timeLeft g - Z.of_nat (S k))
      by lia.
    by destruct g.
Qed.

(** X14. The countdown resolves an unanswered round at the tick that
    brings the clock to zero and not before: with [n] seconds left, the
    first [n - 1] firings of the callback only decrement [timeLeft], and
    the [n]-th stops the timer and runs the time-up, which resolves the
    round, resets the streak, leaves the score, shows the word of the
    number and shows the next button. *)
Theorem countdown_forces_timeout (g : Game) (n : nat) :
  answered g = false → timeLeft g = Z.of_nat n → (1 ≤ n)%nat →
  in_1_10 (currentNumber g) →
  (∀ k, (k < n)%nat → ticks k g = set_timeLeft (Z.of_nat (n - k)) g)
  ∧ (let g' := ticks n g in
     answered g' = true ∧ timeLeft g' = 0 ∧ timerInterval g' = None
     ∧ streak g' = 0 ∧ score g' = score g
     ∧ nextHidden (dom g') = false
     ∧ ∃ w, numberWords !! Z.to_nat (currentNumber g - 1) = Some w
            ∧ feedback (dom g') = FbTimeUp (toUpperCase w)).
Proof.
  intros Ha Hn Hpos Hcur. split.
  - intros k Hk. rewrite (ticks_before n k g Hn Hk). f_equal. lia.
  - destruct n as [|m]; [lia|].
    cbn zeta. change (ticks (S m) g) with (exec tick (ticks m g)).
    rewrite (ticks_before (S m) m g Hn) by lia.
    set (g1 := set_timeLeft (timeLeft g - Z.of_nat m) g).
    assert (Htl : timeLeft g1 = 1) by (unfold g1; cbn; lia).
    rewrite tick_result. cbn zeta. rewrite Htl.
    change (answered g1) with (answered g). rewrite Ha. cbn [decide].
    rewrite decide_True by lia.
    set (g2 := exec stopTimer (set_timeLeft (1 - 1) g1)).
    destruct (stopTimer_frame (set_timeLeft (1 - 1) g1))
      as (Hc & Hsc & _ & _ & Htl2 & _). cbn zeta in *. fold g2 in Hc, Hsc, Htl2.
    assert (Hnone : timerInterval g2 = None).
    { unfold g2, g1, exec. rewrite stopTimer_result.
      by destruct g as [? ? ? ? [h|] ? ? [] []]. }
    assert (Hcur2 : currentNumber g2 = currentNumber g) by (by rewrite Hc).
    destruct (handleTimeUp_defined g2) as (w & Hw & Hrun);
      [by rewrite Hcur2|].
    rewrite Hcur2 in Hw. unfold exec at 1 2 3 4 5 6 7. rewrite Hrun.
    cbn [snd]. clear Hrun Hcur2.
    destruct g2 as [? ? ? ? ? ? ? [] []]. cbn in *. subst.
    repeat split; try done. by exists w.
Qed.

Lemma countdown_forces_timeout_witness :
  answered round0 = false ∧ timeLeft round0 = Z.of_nat 15
  ∧ in_1_10 (currentNumber round0)
  ∧ answered (ticks 15 round0) = true ∧ streak (ticks 15 round0) = 0.
Proof.
  assert (Hcur : in_1_10 (currentNumber round0))
    by (change (currentNumber round0) with 7; unfold in_1_10; lia).
  assert (Hpos : (1 ≤ 15)%nat) by lia.
  split; [reflexivity|]. split; [reflexivity|]. split; [exact Hcur|].
  destruct (countdown_forces_timeout round0 15 eq_refl eq_refl Hpos Hcur)
    as (_ & Ha & _ & _ & Hst & _).
  split; [exact Ha|exact Hst].
Defined.

(** X15. Two rounds in a row never show the same number while the
    window is kept: if a round is started from a running game whose
    window holds fewer than 8 numbers and one of the first 20 samples is
    outside it, the new number differs from the previous one and from
    every other number in the window, and joins the window. *)
Theorem next_round_differs (g : Game) :
  reachable g → keeps_window (usedNumbers g) (rng (host g)) →
  let g' := exec startNewRound g in
  currentNumber g' ≠ currentNumber g
  ∧ (currentNumber g' ∉ usedNumbers g)
  ∧ usedNumbers g' = {[currentNumber g']} ∪ usedNumbers g.
Proof.
  intros Hreach Hkeep. pose proof (reachable_game_inv g Hreach) as Hinv.
  destruct (generateNewNumber_keeps _ _ Hkeep) as (_ & Hfresh & Hu).
  destruct (startNewRound_fields g) as (g' & Hrun & Hcur & Hused & _).
  cbn zeta in *. unfold exec. rewrite Hrun. cbn [snd].
  rewrite Hcur, Hused. split; [|done].
  intros Heq. apply Hfresh. rewrite Heq. apply (inv_window_current g Hinv).
Qed.

Lemma next_round_differs_witness :
  reachable resolved0
  ∧ keeps_window (usedNumbers resolved0) (rng (host resolved0))
  ∧ currentNumber (exec startNewRound resolved0) ≠ currentNumber resolved0.
Proof.
  assert (Hreach : reachable resolved0).
  { unfold resolved0, round0. apply reach_step; [apply reach_init|exact I]. }
  assert (Hkeep : keeps_window (usedNumbers resolved0) (rng (host resolved0))).
  { split.
    - change (usedNumbers resolved0) with ({[7]} : gset Z).
      rewrite size_singleton. lia.
    - exists 0%nat. split; [lia|].
      change (usedNumbers resolved0) with ({[7]} : gset Z).
      change (nth_sample (rng (host resolved0)) 0) with 9.
      intros Hin%elem_of_singleton. discriminate. }
  split; [exact Hreach|]. split; [exact Hkeep|].
  exact (proj1 (next_round_differs resolved0 Hreach Hkeep)).
Defined.

Lemma handleTimeUp_undefined g :
  ¬ in_1_10 (currentNumber g) →
  handleTimeUp g = (Throw, set_streak 0 (set_answered true g)).
Proof.
  intros Hout. js_unfold. destruct g as [cur ? ? ? ? ? ? ? ?]. cbn in *.
  destruct (decide (1 ≤ cur)); [|done].
  destruct (numberWords !! Z.to_nat (cur - 1)) eqn:Hw; [|done].
  destruct Hout. split; [done|].
  apply lookup_lt_Some in Hw. simpl in Hw. lia.
Qed.

(** X16. The number words are the one thing the miss paths cannot do
    without: were the number to guess outside 1..10, a wrong answer and
    a time-up would both end in a [TypeError] raised while the feedback
    is built, after the round is resolved and the streak reset but
    before the feedback and the next button are updated. *)
Theorem miss_without_word_throws (g : Game) (sel : Z) (cfg : Config) :
  ¬ in_1_10 (currentNumber g) →
  (answered g = false → sel ≠ currentNumber g →
   let g' := exec (handleAnswer sel cfg) g in
   outcome (handleAnswer sel cfg) g = Throw
   ∧ answered g' = true ∧ streak g' = 0 ∧ timerInterval g' = None
   ∧ dom g' = dom g)
  ∧ (let g' := exec handleTimeUp g in
     outcome handleTimeUp g = Throw
     ∧ answered g' = true ∧ streak g' = 0 ∧ dom g' = dom g).
Proof.
  intros Hout. split.
  - intros Ha Hne. cbn zeta. unfold exec at 1 2 3 4, outcome.
    rewrite handleAnswer_wrong by done. cbn zeta.
    destruct (numberWords !! Z.to_nat (currentNumber g - 1)) eqn:Hw.
    + rewrite decide_False; cycle 1.
      { intros H1. apply Hout. split; [done|].
        apply lookup_lt_Some in Hw. simpl in Hw. lia. }
      cbn [fst snd]. unfold exec. rewrite stopTimer_result.
      by destruct g as [? ? ? ? [h|] ? ? [] []].
    + cbn [fst snd]. unfold exec. rewrite stopTimer_result.
      by destruct g as [? ? ? ? [h|] ? ? [] []].
  - cbn zeta. unfold exec, outcome.
    rewrite handleTimeUp_undefined by done. cbn [fst snd].
    by destruct g as [? ? ? ? ? ? ? [] []].
Qed.

Lemma miss_without_word_throws_witness :
  ¬ in_1_10 (currentNumber (set_currentNumber 0 round0))
  ∧ outcome handleTimeUp (set_currentNumber 0 round0) = Throw.
Proof.
  assert (Hout : ¬ in_1_10 (currentNumber (set_currentNumber 0 round0)))
    by (change (currentNumber (set_currentNumber 0 round0)) with 0;
        unfold in_1_10; lia).
  split; [exact Hout|].
  exact (proj1 (proj2 (miss_without_word_throws
                         (set_currentNumber 0 round0) 3 plainConfig Hout))).
Defined.

(** X17. A wrong answer is a wrong answer: which of the wrong numbers
    was chosen makes no difference to what the handler does. *)
Theorem wrong_answers_alike (g : Game) (sel1 sel2 : Z) (cfg : Config) :
  sel1 ≠ currentNumber g → sel2 ≠ currentNumber g →
  handleAnswer sel1 cfg g = handleAnswer sel2 cfg g.
Proof.
  intros Hne1 Hne2. destruct (answered g) eqn:Ha.
  - by rewrite !handleAnswer_answered.
  - by rewrite !handleAnswer_wrong.
Qed.

Lemma wrong_answers_alike_witness :
  3 ≠ currentNumber round1 ∧ 11 ≠ currentNumber round1
  ∧ handleAnswer 3 plainConfig round1 = handleAnswer 11 plainConfig round1.
Proof.
  assert (H3 : 3 ≠ currentNumber round1)
    by (change (currentNumber round1) with 9; lia).
  assert (H11 : 11 ≠ currentNumber round1)
    by (change (currentNumber round1) with 9; lia).
  split; [exact H3|]. split; [exact H11|].
  exact (wrong_answers_alike round1 3 11 plainConfig H3 H11).
Defined.
